(** * Extraction heuristics of the highest-grossing-films scraper

    A shallow embedding of [parse.py]: the text normalizer ([clean_text],
    [fix_glued_names]), the cell value selector, the four field extractors,
    the information-box reader ([get_film_info]) and the listing extractor
    ([extract_films]), followed by the properties proved about them.

    Text.  A Python [str] is a sequence of code points.  The model covers
    text whose code points lie below 256: a character is an [ascii], read as
    the code point U+0000..U+00FF, and the character classes of Python
    ([str.isspace], the regular-expression classes [\d] and [\w],
    [str.lower]) are given on that range as CPython defines them.

    Markup.  A parsed page is a BeautifulSoup tree: a [Tag] node carries its
    name, its attributes and its children, a [Text] node is a plain
    NavigableString.  The string nodes of other classes (comments,
    declarations) are not modelled.

    Effects.  The extractors change the cell they are given; they are
    functions from the cell before the call to a result and the cell after
    it.  An exception is a value of [result].  What the program prints and
    its pause between two requests are left out. *)

From Stdlib Require Import String Ascii List NArith ZArith Bool Arith Lia.
Import ListNotations.

Set Implicit Arguments.

(* ================================================================= *)
(** ** Python strings *)

Module Py.

Definition str := list ascii.

(** A string literal of the source. *)
Definition lit (s : string) : str := list_ascii_of_string s.

Definition code (c : ascii) : N := N_of_ascii c.

Definition in_range (lo hi : N) (c : ascii) : bool :=
  ((lo <=? code c) && (code c <=? hi))%N.

Definition chr (n : N) : ascii := ascii_of_N n.

Definition newline : ascii := chr 10.
Definition tab : ascii := chr 9.
Definition nbsp : ascii := chr 160.

(** [str.isspace] on one character: U+0009..U+000D, U+001C..U+0020,
    U+0085 and U+00A0. *)
Definition isspace (c : ascii) : bool :=
  in_range 9 13 c || in_range 28 32 c
  || (code c =? 133)%N || (code c =? 160)%N.

(** The regular-expression class [\d]: the decimal digits; below U+0100
    these are [0-9]. *)
Definition isdecimal (c : ascii) : bool := in_range 48 57 c.

(** The classes [[a-z]] and [[A-Z]]. *)
Definition is_az (c : ascii) : bool := in_range 97 122 c.
Definition is_AZ (c : ascii) : bool := in_range 65 90 c.

(** The regular-expression class [\w]: alphanumeric characters
    ([str.isalnum]) and the underscore.  Below U+0100 the alphanumeric
    characters are the ASCII letters and digits, the ordinal indicators
    U+00AA and U+00BA, the micro sign U+00B5, the superscript digits U+00B2,
    U+00B3, U+00B9, the vulgar fractions U+00BC..U+00BE and the letters
    U+00C0..U+00FF without the signs U+00D7 and U+00F7. *)
Definition isword (c : ascii) : bool :=
  isdecimal c || is_az c || is_AZ c || (code c =? 95)%N
  || (code c =? 170)%N || (code c =? 178)%N || (code c =? 179)%N
  || (code c =? 181)%N || (code c =? 185)%N || (code c =? 186)%N
  || in_range 188 190 c
  || in_range 192 214 c || in_range 216 246 c || in_range 248 255 c.

(** [str.lower] on one character: [A-Z] and the capital letters
    U+00C0..U+00DE (without U+00D7) move 32 code points up. *)
Definition lower_char (c : ascii) : ascii :=
  if is_AZ c || in_range 192 214 c || in_range 216 222 c
  then chr (code c + 32) else c.

Definition lower (s : str) : str := map lower_char s.

Definition eqc (a b : ascii) : bool := Ascii.eqb a b.

(** [a == b] on strings. *)
Fixpoint eqs (a b : str) : bool :=
  match a, b with
  | [], [] => true
  | x :: a', y :: b' => eqc x y && eqs a' b'
  | _, _ => false
  end.

Section Subsequence.
Context {A : Type} (eqb : A -> A -> bool).

(** [p] is a prefix of [s]. *)
Fixpoint starts (p s : list A) : bool :=
  match p, s with
  | [], _ => true
  | x :: p', y :: s' => eqb x y && starts p' s'
  | _ :: _, [] => false
  end.

(** [p] occurs in [s] as a block of consecutive elements. *)
Fixpoint occurs (p s : list A) : bool :=
  starts p s ||
  match s with
  | [] => false
  | _ :: s' => occurs p s'
  end.
End Subsequence.

(** [s.startswith(p)] and [p in s] on strings. *)
Definition startswith (p s : str) : bool := starts eqc p s.
Definition contains (p s : str) : bool := occurs eqc p s.

(** A string is true in a condition when it is not empty. *)
Definition truthy (s : str) : bool :=
  match s with [] => false | _ :: _ => true end.

(** [sep.join(l)] *)
Fixpoint join (sep : str) (l : list str) : str :=
  match l with
  | [] => []
  | [x] => x
  | x :: rest => x ++ sep ++ join sep rest
  end.

(** [s.lstrip()], [s.rstrip()] and [s.strip()] without argument. *)
Fixpoint lstrip (s : str) : str :=
  match s with
  | [] => []
  | c :: t => if isspace c then lstrip t else s
  end.

Definition rstrip (s : str) : str := rev (lstrip (rev s)).

Definition strip (s : str) : str := rstrip (lstrip s).

(** The pieces of [s] between the characters of the class [delim], empty
    pieces included: [re.split] on a class of single characters.  The
    result is never empty. *)
Fixpoint fields (delim : ascii -> bool) (s : str) : list str :=
  match s with
  | [] => [[]]
  | c :: t =>
      if delim c then [] :: fields delim t
      else match fields delim t with
           | p :: ps => (c :: p) :: ps
           | [] => [[c]]
           end
  end.

Definition re_split (delim : ascii -> bool) (s : str) : list str :=
  fields delim s.

(** [s.split()] without argument: the maximal runs of characters that are
    not whitespace, in order; no empty piece is kept. *)
Definition split (s : str) : list str := filter truthy (fields isspace s).

(** [s.replace(a, b)] for single characters [a] and [b]. *)
Definition replace_char (a b : ascii) (s : str) : str :=
  map (fun c => if eqc c a then b else c) s.

(** The longest prefix of [s] in the class [p], and the rest. *)
Fixpoint span (p : ascii -> bool) (s : str) : str * str :=
  match s with
  | [] => ([], [])
  | c :: t =>
      if p c then let (a, b) := span p t in (c :: a, b) else ([], s)
  end.

(** [int(s)] on a string of decimal digits. *)
Definition digit_value (c : ascii) : Z := Z.of_N (code c) - 48.

Definition int_of_digits (s : str) : Z :=
  fold_left (fun acc c => 10 * acc + digit_value c)%Z s 0%Z.

End Py.

Import Py.

(* ================================================================= *)
(** ** Text normalizer *)

(** The pattern [\[\d+\]] at the head of [s]: the length of the match.  The
    digits are taken greedily; giving one back cannot help, since a digit
    is not a closing bracket. *)
Definition match_marker (s : str) : option nat :=
  match s with
  | [] => None
  | c :: t =>
      if eqc c "["%char then
        match span isdecimal t with
        | ((_ :: _) as ds, d :: _) =>
            if eqc d "]"%char then Some (length ds + 2) else None
        | _ => None
        end
      else None
  end.

(** [re.sub(r'\[\d+\]', '', text)].  The scan goes left to right; where the
    pattern matches, the match is dropped and the scan goes on behind it
    ([skip] counts the characters of the match still to drop), elsewhere
    the character is kept. *)
Fixpoint sub_markers_from (skip : nat) (text : str) : str :=
  match text with
  | [] => []
  | c :: t =>
      match skip with
      | S k => sub_markers_from k t
      | O =>
          match match_marker text with
          | Some n => sub_markers_from (n - 1) t
          | None => c :: sub_markers_from 0 t
          end
      end
  end.

Definition sub_markers (text : str) : str := sub_markers_from 0 text.

Definition clean_text (text : str) : str :=
  let text := sub_markers text in
  join (lit " ") (split text).

(** [re.sub(r'(?<=[a-z])(?=[A-Z])', ' ', text)]: the empty match is tried
    before every character; [prev] is the character before the position. *)
Fixpoint fix_glued_from (prev : option ascii) (text : str) : str :=
  match text with
  | [] => []
  | c :: t =>
      let here :=
        match prev with
        | Some p => is_az p && is_AZ c
        | None => false
        end in
      if here then " "%char :: c :: fix_glued_from (Some c) t
      else c :: fix_glued_from (Some c) t
  end.

Definition fix_glued_names (text : str) : str := fix_glued_from None text.

(* ================================================================= *)
(** ** Regular-expression searches of the field extractors *)

Definition isword_at (c : option ascii) : bool :=
  match c with Some x => isword x | None => false end.

(** [\b] between the characters [before] and [after] ([None] at an end of
    the string). *)
Definition word_boundary (before after : option ascii) : bool :=
  xorb (isword_at before) (isword_at after).

(** The pattern [\b(1[89]\d{2}|20\d{2})\b] at the head of [s], where
    [prev] is the character before it. *)
Definition match_year (prev : option ascii) (s : str) : option str :=
  match s with
  | a :: b :: c :: d :: rest =>
      if word_boundary prev (Some a)
         && ((eqc a "1"%char && (eqc b "8"%char || eqc b "9"%char)
              || eqc a "2"%char && eqc b "0"%char)
             && isdecimal c && isdecimal d)
         && word_boundary (Some d) (hd_error rest)
      then Some [a; b; c; d] else None
  | _ => None
  end.

(** [re.search] of that pattern: the leftmost match. *)
Fixpoint search_year_from (prev : option ascii) (s : str) : option str :=
  match match_year prev s with
  | Some y => Some y
  | None =>
      match s with
      | [] => None
      | c :: t => search_year_from (Some c) t
      end
  end.

Definition search_year (s : str) : option str := search_year_from None s.

(** The class [[\d,\.]]. *)
Definition is_amount_char (c : ascii) : bool :=
  isdecimal c || eqc c ","%char || eqc c "."%char.

(** [re.search(r'(\$[\d,\.]+)', s)]: the leftmost match, as the matched
    group and the text behind the match. *)
Fixpoint search_amount (s : str) : option (str * str) :=
  match s with
  | [] => None
  | c :: t =>
      if eqc c "$"%char then
        match span is_amount_char t with
        | ((_ :: _) as ds, rest) => Some (c :: ds, rest)
        | ([], _) => search_amount t
        end
      else search_amount t
  end.

(* ================================================================= *)
(** ** Parsed markup *)

Module Soup.

Unset Elimination Schemes.
Inductive node : Type :=
| Text (s : str)
| Tag (name : str) (attrs : list (str * str)) (contents : list node).
Set Elimination Schemes.

(** Induction on a tree, with the property available for every child. *)
Fixpoint node_induction (P : node -> Prop)
    (HText : forall s, P (Text s))
    (HTag : forall name attrs cs, Forall P cs -> P (Tag name attrs cs))
    (n : node) : P n :=
  match n with
  | Text s => HText s
  | Tag name attrs cs =>
      HTag name attrs cs
           ((fix all (l : list node) : Forall P l :=
               match l with
               | [] => Forall_nil P
               | c :: r => Forall_cons c (node_induction HText HTag c) (all r)
               end) cs)
  end.

(** [tag.children]: the direct children. *)
Definition children (n : node) : list node :=
  match n with
  | Text _ => []
  | Tag _ _ cs => cs
  end.

(** [tag.descendants]: every node below [n], in document order. *)
Fixpoint descendants (n : node) : list node :=
  match n with
  | Text _ => []
  | Tag _ _ cs => flat_map (fun c => c :: descendants c) cs
  end.

(** The node is an element whose name is one of [names]. *)
Definition is_named (names : list str) (n : node) : bool :=
  match n with
  | Text _ => false
  | Tag name _ _ => existsb (eqs name) names
  end.

(** [tag.find(name)] and [tag.find_all(names)]: the first descendant and
    all descendants that are elements of one of these names. *)
Definition find (names : list str) (n : node) : option node :=
  List.find (is_named names) (descendants n).

Definition find_all (names : list str) (n : node) : list node :=
  filter (is_named names) (descendants n).

(** [tag.get(key)] *)
Fixpoint get_attr (key : str) (attrs : list (str * str)) : option str :=
  match attrs with
  | [] => None
  | (k, v) :: rest => if eqs k key then Some v else get_attr key rest
  end.

Definition get (key : str) (n : node) : option str :=
  match n with
  | Text _ => None
  | Tag _ attrs _ => get_attr key attrs
  end.

(** The values of the [class] attribute, which the parser keeps as the
    list of its whitespace-separated tokens; [None] without the
    attribute. *)
Definition classes (n : node) : option (list str) :=
  match get (lit "class") n with
  | None => None
  | Some v => Some (split v)
  end.

(** [class_=f] for a function [f] and [class_=s] for a string [s]: the
    filter is tried on every token and then on the tokens joined by
    spaces. *)
Definition class_matches (f : str -> bool) (n : node) : bool :=
  match classes n with
  | None => false
  | Some tokens => existsb f tokens || f (join (lit " ") tokens)
  end.

(** The text nodes below [n], in document order. *)
Definition strings (n : node) : list str :=
  flat_map (fun d => match d with Text s => [s] | Tag _ _ _ => [] end)
           (descendants n).

(** [tag.stripped_strings]: the text nodes stripped, the empty ones
    left out. *)
Definition stripped_strings (n : node) : list str :=
  filter truthy (map strip (strings n)).

(** [tag.get_text(sep, strip=...)] *)
Definition get_text (sep : str) (stripped : bool) (n : node) : str :=
  join sep (if stripped then stripped_strings n else strings n).

(** The number of nodes of a tree. *)
Fixpoint size (n : node) : nat :=
  match n with
  | Text _ => 1
  | Tag _ _ cs => S (list_sum (map size cs))
  end.

(** The tree [n] after a change in place of the node that
    [n.find(names)] gives: that node becomes [f] of it.  The second
    component tells whether there is such a node.  [change_within] looks
    for the node in a list of children and below them, [below] being the
    search below one child. *)
Definition change_within (names : list str) (f : node -> node)
    (below : node -> node * bool) : list node -> list node * bool :=
  fix within (l : list node) : list node * bool :=
    match l with
    | [] => ([], false)
    | c :: r =>
        if is_named names c then (f c :: r, true)
        else
          let (c', found) := below c in
          if found then (c' :: r, true)
          else let (r', found') := within r in (c :: r', found')
    end.

Fixpoint change_first (names : list str) (f : node -> node) (n : node)
  : node * bool :=
  match n with
  | Text s => (Text s, false)
  | Tag name attrs cs =>
      let (cs', found) :=
        change_within names f (change_first names f) cs in
      (Tag name attrs cs', found)
  end.

(** The effect of [decompose] on every [sup] element below [n]: the
    elements and all they contain leave the tree. *)
Fixpoint without_sups (n : node) : node :=
  match n with
  | Text s => Text s
  | Tag name attrs cs =>
      Tag name attrs
          (flat_map (fun c => if is_named [lit "sup"] c then []
                              else [without_sups c]) cs)
  end.

End Soup.

Import Soup.

(* ================================================================= *)
(** ** Operations on a cell

    The extractors receive a cell (a [td] element) by reference and change
    it in place.  An operation on a cell maps the cell before the call to
    a result and the cell after the call. *)

Definition Cell (A : Type) : Type := node -> A * node.

Definition ret {A} (a : A) : Cell A := fun td => (a, td).

Definition bind {A B} (m : Cell A) (k : A -> Cell B) : Cell B :=
  fun td => let (a, td') := m td in k a td'.

Notation "x <- m ;; k" := (bind m (fun x => k))
  (at level 61, m at next level, right associativity).

(** What an operation returns, and the cell it leaves behind. *)
Definition returns {A} (m : Cell A) (td : node) : A := fst (m td).
Definition leaves {A} (m : Cell A) (td : node) : node := snd (m td).

(** [remove_sup_tags] changes the tag it is given and returns it. *)
Definition remove_sup_tags : Cell node :=
  fun tag => let tag := without_sups tag in (tag, tag).

(** The loop of [extract_first_value_from_cell] over the children;
    [None] when the loop ends without a [return]. *)
Fixpoint first_value (children : list node) : option str :=
  match children with
  | [] => None
  | child :: rest =>
      if is_named [lit "style"; lit "script"] child then first_value rest
      else
        match child with
        | Text s =>
            let text := strip s in
            if truthy text then Some (clean_text text)
            else first_value rest
        | Tag _ _ _ =>
            let text := get_text (lit " ") true child in
            if truthy text then Some (clean_text text)
            else first_value rest
        end
  end.

Definition extract_first_value_from_cell : Cell str :=
  td <- remove_sup_tags ;;
  match first_value (children td) with
  | Some v => ret v
  | None => ret (clean_text (get_text (lit " ") true td))
  end.

Definition extract_director : Cell str :=
  td <- remove_sup_tags ;;
  match find [lit "a"] td with
  | Some a_tag =>
      ret (fix_glued_names (clean_text (get_text [] true a_tag)))
  | None =>
      value <- extract_first_value_from_cell ;;
      ret (fix_glued_names value)
  end.

Definition extract_country : Cell str :=
  td <- remove_sup_tags ;;
  match find [lit "a"] td with
  | Some a_tag =>
      ret (fix_glued_names (clean_text (get_text [] true a_tag)))
  | None =>
      value <- extract_first_value_from_cell ;;
      ret (fix_glued_names value)
  end.

Definition is_newline_or_semicolon (c : ascii) : bool :=
  eqc c newline || eqc c ";"%char.

Definition extract_release_year : Cell (option Z) :=
  td <- remove_sup_tags ;;
  let text := clean_text (get_text (lit " ") true td) in
  let parts := re_split is_newline_or_semicolon text in
  match parts with
  | part0 :: _ =>
      match search_year part0 with
      | Some m => ret (Some (int_of_digits m))
      | None => ret None
      end
  | [] => ret None
  end.

Definition is_pipe_or_newline (c : ascii) : bool :=
  eqc c "|"%char || eqc c newline.

Definition extract_box_office : Cell str :=
  td <- remove_sup_tags ;;
  let combined_text := join (lit " ") (stripped_strings td) in
  let combined_text := replace_char nbsp " "%char combined_text in
  let combined_text := clean_text combined_text in
  match search_amount combined_text with
  | Some (amount, behind) =>
      let remaining := lower behind in
      let unit :=
        if contains (lit "billion") remaining then lit "billion"
        else if contains (lit "million") remaining then lit "million"
        else [] in
      ret (strip (amount ++ lit " " ++ unit))
  | None =>
      let parts := re_split is_pipe_or_newline combined_text in
      match parts with
      | part0 :: _ => ret (strip part0)
      | [] => ret combined_text
      end
  end.

(* ================================================================= *)
(** ** Exceptions *)

Inductive exn : Type :=
| AttributeError   (* an attribute of [None] *)
| TypeError        (* an integer compared with [None] *)
| IndexError
| RequestError.    (* raised by the HTTP request *)

Inductive result (A : Type) : Type :=
| Ok (a : A)
| Raise (e : exn).

Arguments Ok {A} a.
Arguments Raise {A} e.

Definition and_then {A B} (m : result A) (k : A -> result B) : result B :=
  match m with
  | Ok a => k a
  | Raise e => Raise e
  end.

Notation "x <~ m ;; k" := (and_then m (fun x => k))
  (at level 61, m at next level, right associativity).

(* ================================================================= *)
(** ** Records *)

(** The dictionary [info] of [get_film_info]; [None] is Python's [None]. *)
Module Info.
Record t : Type := make {
  director : option str;
  release_year : option Z;
  country : option str;
  box_office : option str
}.

Definition empty : t := make None None None None.

Definition set_director (v : option str) (i : t) : t :=
  make v (release_year i) (country i) (box_office i).
Definition set_release_year (v : option Z) (i : t) : t :=
  make (director i) v (country i) (box_office i).
Definition set_country (v : option str) (i : t) : t :=
  make (director i) (release_year i) v (box_office i).
Definition set_box_office (v : option str) (i : t) : t :=
  make (director i) (release_year i) (country i) v.
End Info.

(** The dictionary [film_data] of [extract_films]. *)
Module Film.
Record t : Type := make {
  title : option str;
  director : option str;
  release_year : option Z;
  country : option str;
  box_office : option str
}.
End Film.

(* ================================================================= *)
(** ** Detail page and listing page *)

(** [class_=lambda c: c and "infobox" in c] *)
Definition is_infobox (n : node) : bool :=
  is_named [lit "table"] n
  && class_matches (fun c => truthy c && contains (lit "infobox") c) n.

(** [class_="wikitable"] *)
Definition is_wikitable (n : node) : bool :=
  is_named [lit "table"] n && class_matches (eqs (lit "wikitable")) n.

(** A call [extract(data_cell)] in the loop of [get_film_info], where
    [data_cell] is [row.find("td")]: what the call returns, and the row
    with its data cell as the call leaves it. *)
Definition call_on_cell {A} (extract : Cell A) (data_cell row : node)
  : A * node :=
  (returns extract data_cell,
   fst (change_first [lit "td"] (leaves extract) row)).

(** The body of the loop of [get_film_info] over the rows: the dictionary
    and the row behind one turn of the loop. *)
Definition info_row (info : Info.t) (row : node) : Info.t * node :=
  match find [lit "th"] row with
  | None => (info, row)
  | Some header =>
      let header_text := lower (get_text [] true header) in
      match find [lit "td"] row with
      | None => (info, row)
      | Some data_cell =>
          if contains (lit "directed by") header_text then
            let (v, row) := call_on_cell extract_director data_cell row in
            (Info.set_director (Some v) info, row)
          else if contains (lit "release date") header_text then
            let (v, row) := call_on_cell extract_release_year data_cell row in
            (Info.set_release_year v info, row)
          else if existsb (eqs header_text)
                    [lit "country"; lit "countries";
                     lit "country of origin"] then
            let (v, row) := call_on_cell extract_country data_cell row in
            (Info.set_country (Some v) info, row)
          else if contains (lit "box office") header_text then
            let (v, row) := call_on_cell extract_box_office data_cell row in
            (Info.set_box_office (Some v) info, row)
          else (info, row)
      end
  end.

(** The loop [for row in infobox.find_all("tr")].  The rows come in
    document order, and a row is read as the turns before it have left
    it: the extractors take the [sup] elements out of the data cell of
    their row, which changes the rows inside that cell, and a row that
    went with a [sup] element has no header cell any more, so that the
    loop passes over it.  [pending] holds, in document order, the trees
    still to visit; behind a row come its contents as the turn of the row
    left them.  [fuel] bounds the number of nodes visited. *)
Fixpoint info_rows (fuel : nat) (pending : list node) (info : Info.t)
  : Info.t :=
  match fuel with
  | O => info
  | S fuel =>
      match pending with
      | [] => info
      | Text _ :: rest => info_rows fuel rest info
      | Tag name attrs cs :: rest =>
          if eqs name (lit "tr") then
            let (info, row) := info_row info (Tag name attrs cs) in
            info_rows fuel (children row ++ rest) info
          else info_rows fuel (cs ++ rest) info
      end
  end.

(** The code points of the caption text looked for in [extract_films]:
    [highest], U+2011 NON-BREAKING HYPHEN, [grossing films]. *)
Definition subject : list N :=
  map code (lit "highest") ++ [8209%N] ++ map code (lit "grossing films").

Definition caption_matches (table : node) : bool :=
  match find [lit "caption"] table with
  | None => false
  | Some caption =>
      occurs N.eqb subject (map code (lower (get_text [] false caption)))
  end.

(** The index of the first element that satisfies [p]. *)
Fixpoint index_where {A} (p : A -> bool) (l : list A) : option nat :=
  match l with
  | [] => None
  | x :: r =>
      if p x then Some 0
      else match index_where p r with
           | Some i => Some (S i)
           | None => None
           end
  end.

Definition listing_url : str :=
  lit "https://en.wikipedia.org/wiki/List_of_highest-grossing_films".

Section Pages.

(** [requests.get] followed by the parser: the tree of the page at a
    URL, or the exception of the request. *)
Variable fetch : str -> result node.

Definition get_film_info (film_url : str) : result Info.t :=
  film_soup <~ fetch film_url ;;
  let info := Info.empty in
  match List.find is_infobox (descendants film_soup) with
  | None => Ok info
  | Some infobox =>
      Ok (info_rows (size infobox) (children infobox) info)
  end.

(** The title and the link of a title cell. *)
Definition title_and_link (title_cell : node) : option str * option str :=
  match find [lit "i"] title_cell with
  | Some i_tag =>
      match find [lit "a"] i_tag with
      | Some a_tag =>
          (Some (clean_text (get_text [] true a_tag)),
           get (lit "href") a_tag)
      | None => (Some (clean_text (get_text [] true i_tag)), None)
      end
  | None =>
      match find [lit "a"] title_cell with
      | Some a_tag =>
          (Some (clean_text (get_text [] true a_tag)),
           get (lit "href") a_tag)
      | None => (Some (clean_text (get_text [] true title_cell)), None)
      end
  end.

(** The body of the loop of [extract_films] over the rows: [None] when
    the row is skipped, the record of the row otherwise. *)
Definition film_of_row (title_index : option nat) (row : node)
  : result (option Film.t) :=
  let cells := find_all [lit "td"; lit "th"] row in
  match cells with
  | [] => Ok None
  | _ :: _ =>
      match title_index with
      | None => Raise TypeError
      | Some index =>
          if length cells <=? index then Ok None
          else
            match nth_error cells index with
            | None => Raise IndexError
            | Some title_cell =>
                let (film_title, film_link) := title_and_link title_cell in
                let film_data := Film.make film_title None None None None in
                match film_link with
                | Some ((_ :: _) as link) =>
                    let full_link :=
                      if startswith (lit "http") link then link
                      else lit "https://en.wikipedia.org" ++ link in
                    match get_film_info full_link with
                    | Ok extra_info =>
                        Ok (Some (Film.make film_title
                                    (Info.director extra_info)
                                    (Info.release_year extra_info)
                                    (Info.country extra_info)
                                    (Info.box_office extra_info)))
                    | Raise _ => Ok (Some film_data)
                    end
                | _ => Ok (Some film_data)
                end
            end
      end
  end.

Fixpoint films_of_rows (title_index : option nat) (rows : list node)
    (films : list Film.t) : result (list Film.t) :=
  match rows with
  | [] => Ok films
  | row :: rest =>
      film <~ film_of_row title_index row ;;
      match film with
      | None => films_of_rows title_index rest films
      | Some film_data =>
          films_of_rows title_index rest (films ++ [film_data])
      end
  end.

Definition extract_films : result (list Film.t) :=
  soup <~ fetch listing_url ;;
  let films := [] in
  let tables := filter is_wikitable (descendants soup) in
  let target_table :=
    match List.find caption_matches tables with
    | Some table => Some table
    | None => hd_error tables
    end in
  match target_table with
  | None => Raise AttributeError
  | Some target_table =>
      match find [lit "tr"] target_table with
      | None => Raise AttributeError
      | Some header_row =>
          let header_cells := find_all [lit "th"; lit "td"] header_row in
          let headers_list :=
            map (fun cell => lower (get_text [] true cell)) header_cells in
          let title_index :=
            index_where (contains (lit "title")) headers_list in
          let rows := tl (find_all [lit "tr"] target_table) in
          films_of_rows title_index rows films
      end
  end.

End Pages.

(* ================================================================= *)
(** ** Definitions used to state the properties *)

(** A footnote marker: an opening bracket, one or more decimal digits, a
    closing bracket. *)
Definition bracketed_integer (m : str) : Prop :=
  exists ds, ds <> [] /\ forallb isdecimal ds = true
             /\ m = "["%char :: ds ++ ["]"%char].

(** Some footnote marker occurs in [s]. *)
Fixpoint has_marker (s : str) : bool :=
  match s with
  | [] => false
  | _ :: t =>
      match match_marker s with
      | Some _ => true
      | None => has_marker t
      end
  end.

(** Every run of whitespace replaced by one space: of a run, the last
    character becomes the space and the others go. *)
Fixpoint collapse_whitespace (s : str) : str :=
  match s with
  | [] => []
  | c :: t =>
      if isspace c then
        match t with
        | [] => [" "%char]
        | d :: _ =>
            if isspace d then collapse_whitespace t
            else " "%char :: collapse_whitespace t
        end
      else c :: collapse_whitespace t
  end.

(** The place [i] of [text] is one where a lowercase letter is followed at
    once by an uppercase letter: [text[i-1]] is in [a-z] and [text[i]] in
    [A-Z]. *)
Definition glued_at (text : str) (i : nat) : bool :=
  match i with
  | O => false
  | S j =>
      match nth_error text j, nth_error text i with
      | Some p, Some c => is_az p && is_AZ c
      | _, _ => false
      end
  end.


(** The character before the place [i] of [s], if any. *)
Definition char_before (s : str) (i : nat) : option ascii :=
  match i with
  | O => None
  | S j => nth_error s j
  end.

(** A year stands at the place [i] of [s]: four decimal digits whose value
    [y] lies between 1800 and 2099, with no word character right before or
    right behind them. *)
Definition year_at (s : str) (i : nat) (y : Z) : Prop :=
  exists a b c d,
    firstn 4 (skipn i s) = [a; b; c; d]
    /\ forallb isdecimal [a; b; c; d] = true
    /\ y = int_of_digits [a; b; c; d]
    /\ (1800 <= y <= 2099)%Z
    /\ isword_at (char_before s i) = false
    /\ isword_at (nth_error s (i + 4)) = false.

(** The text before the first newline or semicolon. *)
Fixpoint first_segment (s : str) : str :=
  match s with
  | [] => []
  | c :: t =>
      if is_newline_or_semicolon c then [] else c :: first_segment t
  end.

(** [extract_release_year] with the split on semicolons only. *)
Definition extract_release_year_semicolon : Cell (option Z) :=
  td <- remove_sup_tags ;;
  let text := clean_text (get_text (lit " ") true td) in
  let parts := re_split (fun c => eqc c ";"%char) text in
  match parts with
  | part0 :: _ =>
      match search_year part0 with
      | Some m => ret (Some (int_of_digits m))
      | None => ret None
      end
  | [] => ret None
  end.

(** The text of a direct child, as the cell value selector reads it: the
    stripped text of a text node, the stripped texts below an element
    joined by spaces. *)
Definition child_text (child : node) : str :=
  match child with
  | Text s => strip s
  | Tag _ _ _ => get_text (lit " ") true child
  end.

(** The first direct child that is no style or script element and has
    text; the normalized text of that child, or of the whole cell when
    there is none. *)
Definition first_child_value (td : node) : str :=
  match List.find (fun child =>
                     negb (is_named [lit "style"; lit "script"] child)
                     && truthy (child_text child))
                  (children td) with
  | Some child => clean_text (child_text child)
  | None => clean_text (get_text (lit " ") true td)
  end.

(** Some [sup] element lies below [n]. *)
Definition has_sup (n : node) : bool :=
  existsb (is_named [lit "sup"]) (descendants n).

(** The four labels of [get_film_info], and the label of a row: the
    branch of the loop body the row takes, if any. *)
Inductive label : Type := Directed | Released | Country | BoxOffice.

Definition label_eqb (a b : label) : bool :=
  match a, b with
  | Directed, Directed | Released, Released
  | Country, Country | BoxOffice, BoxOffice => true
  | _, _ => false
  end.

Definition header_label (header_text : str) : option label :=
  if contains (lit "directed by") header_text then Some Directed
  else if contains (lit "release date") header_text then Some Released
  else if existsb (eqs header_text)
            [lit "country"; lit "countries"; lit "country of origin"]
       then Some Country
  else if contains (lit "box office") header_text then Some BoxOffice
  else None.

(** The label and the data cell of a row that has a header cell and a data
    cell and whose header matches a label. *)
Definition labelled_cell (row : node) : option (label * node) :=
  match find [lit "th"] row, find [lit "td"] row with
  | Some header, Some data_cell =>
      match header_label (lower (get_text [] true header)) with
      | Some l => Some (l, data_cell)
      | None => None
      end
  | _, _ => None
  end.

Definition has_label (l : label) (row : node) : bool :=
  match labelled_cell row with
  | Some (l', _) => label_eqb l l'
  | None => false
  end.

(** The data cell of the first and of the last row with the label [l]. *)
Definition first_cell (l : label) (rows : list node) : option node :=
  match List.find (has_label l) rows with
  | Some row => find [lit "td"] row
  | None => None
  end.

Definition last_cell (l : label) (rows : list node) : option node :=
  first_cell l (rev rows).

(** No row below [infobox] lies inside another row. *)
Definition rows_apart (infobox : node) : bool :=
  forallb (fun row => match find [lit "tr"] row with
                      | None => true
                      | Some _ => false
                      end)
          (find_all [lit "tr"] infobox).

(** Concrete cells and pages. *)

Definition element (name : string) (cs : list node) : node :=
  Tag (lit name) [] cs.

(** A box-office cell with the text nodes ["$2"], [".264"] and
    [" billion"]. *)
Definition split_amount_cell : node :=
  element "td" [Text (lit "$2");
                element "span" [Text (lit ".264")];
                Text (lit " billion")].

Definition jaws_release_cell : node :=
  element "td"
    [Text (lit "June 20, 1975 (1975-06-20)" ++ [newline]
           ++ lit "November 1976")].

Definition second_line_cell : node :=
  element "td" [Text (lit "TBA" ++ [newline] ++ lit "1999")].

Definition infobox_row (header text : string) : node :=
  element "tr" [element "th" [Text (lit header)];
                element "td" [Text (lit text)]].

Definition document (cs : list node) : node := Tag (lit "[document]") [] cs.

(** A detail page whose infobox has two rows "Directed by". *)
Definition two_directors_page : node :=
  document
    [Tag (lit "table") [(lit "class", lit "infobox vevent")]
       [infobox_row "Directed by" "Alice"; infobox_row "Directed by" "Bob"]].

(** A detail page with a row "Directed by" inside a footnote of the data
    cell of another row "Directed by". *)
Definition footnote_row_page : node :=
  document
    [Tag (lit "table") [(lit "class", lit "infobox")]
       [element "tr"
          [element "th" [Text (lit "Directed by")];
           element "td"
             [Text (lit "Alice");
              element "sup"
                [element "table" [infobox_row "Directed by" "Bob"]]]]]].

(** A listing page without any table. *)
Definition empty_page : node := document [].

(** A listing page whose table has no header mentioning a title. *)
Definition untitled_listing_page : node :=
  document
    [Tag (lit "table") [(lit "class", lit "wikitable")]
       [element "tr" [element "th" [Text (lit "Rank")];
                      element "th" [Text (lit "Film")]];
        element "tr" [element "td" [Text (lit "1")];
                      element "td" [Text (lit "Avatar")]]]].

(* ================================================================= *)
(** ** Definitions used in the proofs *)

(** A word: not empty, and without whitespace. *)
Definition word (w : str) : Prop :=
  w <> [] /\ Forall (fun c => isspace c = false) w.

(** The text behind [join] and [split]. *)
Definition squeeze (s : str) : str := join (lit " ") (split s).

Definition starts_with_space (s : str) : bool :=
  match s with
  | [] => false
  | c :: _ => isspace c
  end.

(** Some element of one of these names lies below [n]. *)
Definition below (names : list str) (n : node) : bool :=
  existsb (is_named names) (descendants n).

(** The rows in and below the trees of a list, in document order. *)
Definition rows_of (forest : list node) : list node :=
  filter (is_named [lit "tr"]) (flat_map (fun c => c :: descendants c) forest).

Definition forest_size (forest : list node) : nat :=
  list_sum (map size forest).

(** One turn of the loop of [get_film_info], for the dictionary alone. *)
Definition info_turn (info : Info.t) (row : node) : Info.t :=
  fst (info_row info row).

(** What a row with the label [l] and the data cell [c] does to the
    dictionary. *)
Definition assign (l : label) (c : node) (info : Info.t) : Info.t :=
  match l with
  | Directed => Info.set_director (Some (returns extract_director c)) info
  | Released => Info.set_release_year (returns extract_release_year c) info
  | Country => Info.set_country (Some (returns extract_country c)) info
  | BoxOffice => Info.set_box_office (Some (returns extract_box_office c)) info
  end.

Definition footnoted_cell : node :=
  element "td" [Text (lit "James Cameron");
                element "sup" [Text (lit "[1]")]].

(* ================================================================= *)
(** ** Definitions used to state further properties *)

(** A text is normalized when it has no whitespace at its ends and no
    whitespace but single spaces inside: stripping it and collapsing its
    whitespace leave it as it is. *)
Definition normalized (t : str) : Prop :=
  strip t = t /\ collapse_whitespace t = t.

(** The same as a test: the text does not start with whitespace, and
    every whitespace character is a space followed by a character that is
    no whitespace. *)
Fixpoint tidy (t : str) : bool :=
  match t with
  | [] => true
  | c :: r =>
      if isspace c then
        eqc c " "%char
        && match r with
           | [] => false
           | d :: _ => negb (isspace d) && tidy r
           end
      else tidy r
  end.

Definition is_normalized (t : str) : bool :=
  negb (starts_with_space t) && tidy t.

(** A lowercase letter followed at once by an uppercase letter occurs in
    [t], or at its head behind the character [prev]. *)
Fixpoint has_glue_after (prev : option ascii) (t : str) : bool :=
  match t with
  | [] => false
  | c :: r =>
      match prev with
      | Some p => is_az p && is_AZ c
      | None => false
      end
      || has_glue_after (Some c) r
  end.

(** The text without its spaces. *)
Definition without_spaces (s : str) : str :=
  filter (fun c => negb (eqc c " "%char)) s.

(** The text in which [extract_box_office] looks for the amount: the
    stripped text nodes of the cell without its [sup] elements, joined by
    spaces and normalized. *)
Definition box_office_text (td : node) : str :=
  clean_text
    (replace_char nbsp " "%char
       (join (lit " ") (stripped_strings (without_sups td)))).

(** The unit that [extract_box_office] reads behind the amount, with the
    space in front of it. *)
Definition unit_suffix (behind : str) : str :=
  if contains (lit "billion") (lower behind) then lit " billion"
  else if contains (lit "million") (lower behind) then lit " million"
  else [].

(** The table that [extract_films] reads: the first table of class
    [wikitable] whose caption mentions the subject, or else the first
    table of that class. *)
Definition target_table (soup : node) : option node :=
  let tables := filter is_wikitable (descendants soup) in
  match List.find caption_matches tables with
  | Some table => Some table
  | None => hd_error tables
  end.

(** The index of the title column, read from the header row. *)
Definition title_index_of (header_row : node) : option nat :=
  index_where (contains (lit "title"))
    (map (fun cell => lower (get_text [] true cell))
         (find_all [lit "th"; lit "td"] header_row)).

(** The rows behind the header row. *)
Definition data_rows (table : node) : list node :=
  tl (find_all [lit "tr"] table).

(** The cells of a row, and whether it has any. *)
Definition cells_of (row : node) : list node :=
  find_all [lit "td"; lit "th"] row.

Definition has_cells (row : node) : bool :=
  match cells_of row with [] => false | _ :: _ => true end.

(** The titles of the rows that reach the title column [index], in the
    order of the rows. *)
Definition row_titles (index : nat) (rows : list node) : list (option str) :=
  flat_map (fun row =>
              match nth_error (cells_of row) index with
              | Some title_cell => [fst (title_and_link title_cell)]
              | None => []
              end) rows.

(** The details of a record are all null. *)
Definition no_details (film : Film.t) : Prop :=
  Film.director film = None /\ Film.release_year film = None
  /\ Film.country film = None /\ Film.box_office film = None.

(** The details of a record are null, or they are what [get_film_info]
    returns for some URL. *)
Definition details_from (fetch : str -> result node) (film : Film.t) : Prop :=
  no_details film
  \/ exists url info,
       get_film_info fetch url = Ok info
       /\ Film.director film = Info.director info
       /\ Film.release_year film = Info.release_year info
       /\ Film.country film = Info.country info
       /\ Film.box_office film = Info.box_office info.

(** A listing page with a title column and two films, the second without
    link. *)
Definition two_films_page : node :=
  document
    [Tag (lit "table") [(lit "class", lit "wikitable")]
       [element "tr" [element "th" [Text (lit "Rank")];
                      element "th" [Text (lit "Title")]];
        element "tr"
          [element "td" [Text (lit "1")];
           element "td"
             [element "i"
                [Tag (lit "a") [(lit "href", lit "/wiki/Avatar")]
                   [Text (lit "Avatar")]]]];
        element "tr" [element "td" [Text (lit "2")];
                      element "td" [Text (lit "Titanic")]]]].

(** The texts of the header cells, as [extract_films] compares them. *)
Definition headers_of (header_row : node) : list str :=
  map (fun cell => lower (get_text [] true cell))
      (find_all [lit "th"; lit "td"] header_row).

(** The text before the first pipe. *)
Fixpoint before_pipe (s : str) : str :=
  match s with
  | [] => []
  | c :: t => if eqc c "|"%char then [] else c :: before_pipe t
  end.

(** A box-office cell without amount. *)
Definition unknown_amount_cell : node :=
  element "td" [Text (lit "unknown | see text")].







(* ================================================================= *)
(** * Properties *)

(* ================================================================= *)
(** ** Characters *)

Lemma eqc_true (a b : ascii) : eqc a b = true <-> a = b.
Proof. unfold eqc. apply Ascii.eqb_eq. Qed.

Lemma eqc_refl (a : ascii) : eqc a a = true.
Proof. apply eqc_true. reflexivity. Qed.

(** A property of characters that holds for all 256 of them. *)
Ltac all_chars c :=
  destruct c as [[] [] [] [] [] [] [] []]; vm_compute; try reflexivity;
  try discriminate; try tauto.

Lemma space_isspace : isspace " "%char = true.
Proof. reflexivity. Qed.

Lemma decimal_isword (c : ascii) : isdecimal c = true -> isword c = true.
Proof. all_chars c. Qed.

(* ================================================================= *)
(** ** [fields], [split] and [join] *)

Lemma fields_not_nil (delim : ascii -> bool) (s : str) : fields delim s <> [].
Proof.
  destruct s as [|c t]; simpl; [discriminate|].
  destruct (delim c); [discriminate|].
  destruct (fields delim t); discriminate.
Qed.

Lemma fields_cons_delim (delim : ascii -> bool) c t :
  delim c = true -> fields delim (c :: t) = [] :: fields delim t.
Proof. intros H. simpl. now rewrite H. Qed.

(** A piece without delimiter in front of a delimiter is a field. *)
Lemma fields_piece (delim : ascii -> bool) (w : str) d r :
  Forall (fun c => delim c = false) w -> delim d = true ->
  fields delim (w ++ d :: r) = w :: fields delim r.
Proof.
  intros Hw Hd. induction Hw as [|c w Hc _ IH].
  - now apply fields_cons_delim.
  - cbn [app fields]. rewrite Hc, IH. reflexivity.
Qed.

Lemma fields_whole (delim : ascii -> bool) (w : str) :
  Forall (fun c => delim c = false) w -> fields delim w = [w].
Proof.
  intros Hw. induction Hw as [|c w Hc _ IH]; [reflexivity|].
  cbn [fields]. rewrite Hc, IH. reflexivity.
Qed.

(** No field holds a delimiter. *)
Lemma fields_clean (delim : ascii -> bool) (s : str) :
  Forall (Forall (fun c => delim c = false)) (fields delim s).
Proof.
  induction s as [|c t IH]; simpl.
  - repeat constructor.
  - destruct (delim c) eqn:Hc.
    + constructor; [constructor | exact IH].
    + destruct (fields delim t) as [|p ps]; [repeat constructor; exact Hc|].
      inversion IH; subst. constructor; [constructor|]; assumption.
Qed.

Lemma split_words (s : str) : Forall word (split s).
Proof.
  unfold split. pose proof (fields_clean isspace s) as H.
  induction H as [|w ws Hw _ IH]; simpl; [constructor|].
  destruct w as [|c w]; simpl; [exact IH|].
  constructor; [split; [discriminate | exact Hw] | exact IH].
Qed.

Lemma split_join (ws : list str) :
  Forall word ws -> split (join (lit " ") ws) = ws.
Proof.
  induction 1 as [|w ws [Hne Hw] Hws IH]; [reflexivity|].
  destruct ws as [|w' ws].
  - cbn [join]. unfold split. rewrite fields_whole by exact Hw.
    destruct w; [contradiction | reflexivity].
  - change (join (lit " ") (w :: w' :: ws))
      with (w ++ " "%char :: join (lit " ") (w' :: ws)).
    unfold split in *. rewrite fields_piece by (exact Hw || reflexivity).
    cbn [filter]. rewrite IH. destruct w; [contradiction | reflexivity].
Qed.

(** Normalizing whitespace twice is normalizing it once. *)
Lemma join_split_idempotent (s : str) :
  join (lit " ") (split (join (lit " ") (split s))) = join (lit " ") (split s).
Proof. rewrite split_join by apply split_words. reflexivity. Qed.

(** Behind [join] and [split] the only whitespace is the space. *)
Lemma join_words_chars (ws : list str) :
  Forall word ws ->
  Forall (fun c => isspace c = false \/ c = " "%char) (join (lit " ") ws).
Proof.
  induction 1 as [|w ws [_ Hw] Hws IH]; [constructor|].
  assert (Hw' : Forall (fun c => isspace c = false \/ c = " "%char) w).
  { eapply Forall_impl; [|exact Hw]. intros; now left. }
  destruct ws as [|w' ws]; [exact Hw'|].
  change (join (lit " ") (w :: w' :: ws))
    with (w ++ " "%char :: join (lit " ") (w' :: ws)).
  apply Forall_app. split; [exact Hw'|].
  constructor; [now right | exact IH].
Qed.

Lemma clean_text_chars (s : str) :
  Forall (fun c => isspace c = false \/ c = " "%char) (clean_text s).
Proof. apply join_words_chars, split_words. Qed.

(* ================================================================= *)
(** ** Footnote markers *)

Lemma span_decimal_all (ds : str) (r : str) :
  forallb isdecimal ds = true ->
  match r with [] => True | c :: _ => isdecimal c = false end ->
  span isdecimal (ds ++ r) = (ds, r).
Proof.
  intros Hds Hr. induction ds as [|d ds IH]; simpl in *.
  - destruct r as [|c r]; [reflexivity|]. simpl. now rewrite Hr.
  - apply andb_true_iff in Hds as [Hd Hds]. rewrite Hd, IH by exact Hds.
    reflexivity.
Qed.

Lemma span_spec (p : ascii -> bool) (s : str) :
  let (a, b) := span p s in
  s = a ++ b /\ forallb p a = true
  /\ match b with [] => True | c :: _ => p c = false end.
Proof.
  induction s as [|c t IH]; simpl; [auto|].
  destruct (p c) eqn:Hc.
  - destruct (span p t) as [a b]. destruct IH as (-> & Ha & Hb).
    simpl. rewrite Hc. auto.
  - simpl. auto.
Qed.

(** The pattern matches at the head of [s] exactly when [s] starts with a
    footnote marker; the match is that marker. *)
Lemma match_marker_Some (s : str) (n : nat) :
  match_marker s = Some n <->
  exists m r, bracketed_integer m /\ s = m ++ r /\ n = length m.
Proof.
  split.
  - destruct s as [|c t]; simpl; [discriminate|].
    destruct (eqc c "[") eqn:Hc; [|discriminate].
    apply eqc_true in Hc. subst c.
    pose proof (span_spec isdecimal t) as Hs.
    destruct (span isdecimal t) as [ds b].
    destruct Hs as (-> & Hds & Hb).
    destruct ds as [|d ds]; [discriminate|].
    destruct b as [|e b]; [discriminate|].
    destruct (eqc e "]") eqn:He; [|discriminate].
    apply eqc_true in He. subst e. intros [= <-].
    exists ("["%char :: (d :: ds) ++ ["]"%char]), b. split; [|split].
    + exists (d :: ds). repeat split; [discriminate | exact Hds].
    + simpl. rewrite <- app_assoc. reflexivity.
    + simpl. rewrite length_app. simpl. lia.
  - intros (m & r & (ds & Hne & Hds & ->) & -> & ->).
    simpl. rewrite <- app_assoc. simpl.
    rewrite span_decimal_all by (exact Hds || reflexivity).
    destruct ds as [|d ds]; [contradiction|].
    simpl. rewrite length_app. simpl. f_equal. lia.
Qed.

Lemma sub_markers_from_skipn (k : nat) (s : str) :
  sub_markers_from k s = sub_markers (skipn k s).
Proof.
  revert k. induction s as [|c t IH]; intros [|k]; try reflexivity.
  simpl. apply IH.
Qed.

Lemma skipn_length_app {A} (x r : list A) : skipn (length x) (x ++ r) = r.
Proof. induction x as [|c x IH]; [reflexivity | exact IH]. Qed.

(** A marker at the head is dropped, and the scan goes on behind it. *)
Lemma sub_markers_head (m r : str) :
  bracketed_integer m -> sub_markers (m ++ r) = sub_markers r.
Proof.
  intros Hm.
  assert (H : match_marker (m ++ r) = Some (length m)).
  { apply match_marker_Some. now exists m, r. }
  destruct m as [|c m]; [destruct Hm as (? & _ & _ & [=])|].
  unfold sub_markers at 1. cbn [app sub_markers_from].
  cbn [app] in H. rewrite H.
  rewrite sub_markers_from_skipn. f_equal.
  cbn [length]. rewrite Nat.sub_succ, Nat.sub_0_r.
  apply skipn_length_app.
Qed.

Lemma sub_markers_keep (c : ascii) (t : str) :
  match_marker (c :: t) = None ->
  sub_markers (c :: t) = c :: sub_markers t.
Proof.
  intros H. unfold sub_markers. cbn [sub_markers_from]. now rewrite H.
Qed.

(** Without a marker in it, a text is left as it is. *)
Lemma sub_markers_none (s : str) :
  has_marker s = false -> sub_markers s = s.
Proof.
  induction s as [|c t IH]; [reflexivity|].
  cbn [has_marker]. destruct (match_marker (c :: t)) eqn:E; [discriminate|].
  intros H. rewrite sub_markers_keep by exact E. now rewrite IH.
Qed.

(** [has_marker] finds the occurrences of markers. *)
Lemma has_marker_true (s : str) :
  has_marker s = true <->
  exists a m b, bracketed_integer m /\ s = a ++ m ++ b.
Proof.
  split.
  - induction s as [|c t IH]; [discriminate|].
    cbn [has_marker]. destruct (match_marker (c :: t)) eqn:E.
    + intros _. apply match_marker_Some in E as (m & r & Hm & Hs & _).
      exists [], m, r. auto.
    + intros H. destruct (IH H) as (a & m & b & Hm & ->).
      exists (c :: a), m, b. auto.
  - intros (a & m & b & Hm & ->). induction a as [|c a IH].
    + destruct Hm as (ds & Hne & Hds & ->). cbn [app has_marker].
      assert (H : match_marker (("["%char :: ds ++ ["]"%char]) ++ b)
                  = Some (length ("["%char :: ds ++ ["]"%char]))).
      { apply match_marker_Some. eexists _, b. repeat split.
        exists ds. auto. }
      cbn [app] in H. now rewrite H.
    + cbn [app has_marker]. rewrite IH.
      now destruct (match_marker (c :: a ++ m ++ b)).
Qed.

(** In front of a marker, the pattern matches as it does without what
    follows: a match cannot reach into the marker. *)
Lemma match_marker_prefix (a m b : str) :
  bracketed_integer m ->
  match_marker (a ++ m ++ b) = match_marker a
  \/ a = [].
Proof.
  intros (ds & Hne & Hds & ->).
  destruct a as [|c a]; [now right|]. left.
  cbn [app match_marker]. destruct (eqc c "["); [|reflexivity].
  pose proof (span_spec isdecimal a) as Hs.
  destruct (span isdecimal a) as [x y] eqn:E.
  destruct Hs as (-> & Hx & Hy).
  destruct y as [|e y].
  - rewrite app_nil_r.
    rewrite span_decimal_all by (exact Hx || reflexivity).
    cbn [app]. destruct x; reflexivity.
  - rewrite <- app_assoc.
    rewrite span_decimal_all by (exact Hx || exact Hy).
    reflexivity.
Qed.

Lemma match_marker_length (s : str) (n : nat) :
  match_marker s = Some n -> 3 <= n <= length s.
Proof.
  intros H. apply match_marker_Some in H as (m & r & (ds & Hne & _ & ->) & -> & ->).
  destruct ds; [contradiction|].
  cbn [length app]. rewrite !length_app. simpl. lia.
Qed.

(** Every occurrence of a marker is removed: what is in front of it and
    what is behind it are scanned apart. *)
Lemma sub_markers_occurrence (a m b : str) :
  bracketed_integer m ->
  sub_markers (a ++ m ++ b) = sub_markers a ++ sub_markers b.
Proof.
  intros Hm. remember (length a) as n eqn:Hn. revert a Hn.
  induction n as [n IH] using lt_wf_ind. intros a Hn.
  destruct (match_marker_prefix a b Hm) as [H | ->];
    [| now apply (sub_markers_head b Hm)].
  destruct a as [|c a]; [now apply (sub_markers_head b Hm)|].
  destruct (match_marker (c :: a)) as [k|] eqn:E.
  - pose proof (@match_marker_length _ _ E) as Hk.
    unfold sub_markers at 1 2. cbn [app sub_markers_from].
    cbn [app] in H. rewrite H, E.
    rewrite !sub_markers_from_skipn.
    cbn [length] in Hk.
    rewrite skipn_app.
    replace (k - 1 - length a) with 0 by lia. cbn [skipn].
    apply (IH (length (skipn (k - 1) a))); [|reflexivity].
    subst n. rewrite length_skipn. cbn [length]. lia.
  - cbn [app] in *. rewrite sub_markers_keep by congruence.
    rewrite (@sub_markers_keep c a) by exact E. cbn [app]. f_equal.
    apply (IH (length a)); [subst n; simpl; lia | reflexivity].
Qed.

(** Removing markers never makes a text longer, and makes it shorter when
    there is a marker. *)
Lemma sub_markers_length (s : str) :
  length (sub_markers s) <= length s
  /\ (has_marker s = true -> length (sub_markers s) < length s).
Proof.
  remember (length s) as n eqn:Hn. revert s Hn.
  induction n as [n IH] using lt_wf_ind. intros s Hn.
  destruct s as [|c t]; [simpl in *; subst; split; [lia | discriminate]|].
  cbn [has_marker]. destruct (match_marker (c :: t)) as [k|] eqn:E.
  - pose proof (@match_marker_length _ _ E) as Hk. cbn [length] in Hk.
    unfold sub_markers. cbn [sub_markers_from]. rewrite E.
    rewrite sub_markers_from_skipn.
    destruct (IH (length (skipn (k - 1) t))
                 ltac:(subst n; rewrite length_skipn; simpl; lia)
                 _ eq_refl) as [H _].
    rewrite length_skipn in H. subst n. cbn [length]. split; intros; lia.
  - rewrite sub_markers_keep by exact E.
    destruct (IH (length t) ltac:(subst n; simpl; lia) _ eq_refl) as [H1 H2].
    subst n. cbn [length]. split; [lia|]. intros H. apply H2 in H. lia.
Qed.

(* ================================================================= *)
(** ** Whitespace *)

Lemma split_cons_space c t : isspace c = true -> split (c :: t) = split t.
Proof. intros H. unfold split. cbn [fields]. now rewrite H. Qed.

Lemma split_cons_other c t :
  isspace c = false ->
  split (c :: t) =
  match t with
  | [] => [[c]]
  | d :: _ =>
      if isspace d then [c] :: split t
      else match split t with
           | w :: ws => (c :: w) :: ws
           | [] => [[c]]
           end
  end.
Proof.
  intros H. unfold split. cbn [fields]. rewrite H.
  destruct t as [|d t]; [reflexivity|].
  cbn [fields]. destruct (isspace d) eqn:Hd; [reflexivity|].
  destruct (fields isspace t) as [|p ps] eqn:E;
    [now apply fields_not_nil in E | reflexivity].
Qed.

Lemma split_head_other c t : isspace c = false -> split (c :: t) <> [].
Proof.
  intros H. rewrite split_cons_other by exact H.
  destruct t as [|d t]; [discriminate|].
  destruct (isspace d); [discriminate|].
  destruct (split (d :: t)); discriminate.
Qed.

Lemma join_cons_head (sep : str) c w ws :
  join sep ((c :: w) :: ws) = c :: join sep (w :: ws).
Proof. destruct ws; reflexivity. Qed.

Lemma join_words_nil (ws : list str) :
  Forall word ws -> join (lit " ") ws = [] -> ws = [].
Proof.
  intros H. destruct H as [|w ws [Hne _] _]; [reflexivity|].
  destruct w; [contradiction|]. destruct ws; discriminate.
Qed.

Lemma squeeze_cons (c : ascii) (t : str) :
  squeeze (c :: t) =
  if isspace c then squeeze t
  else match t with
       | [] => [c]
       | d :: _ =>
           if isspace d
           then match squeeze t with
                | [] => [c]
                | _ :: _ => c :: " "%char :: squeeze t
                end
           else c :: squeeze t
       end.
Proof.
  unfold squeeze. destruct (isspace c) eqn:Hc.
  - now rewrite split_cons_space.
  - rewrite split_cons_other by exact Hc.
    destruct t as [|d t]; [reflexivity|].
    destruct (isspace d) eqn:Hd.
    + destruct (split (d :: t)) as [|w ws] eqn:E; [reflexivity|].
      change (join (lit " ") ([c] :: w :: ws))
        with (c :: " "%char :: join (lit " ") (w :: ws)).
      destruct (join (lit " ") (w :: ws)) eqn:J; [|reflexivity].
      apply join_words_nil in J; [discriminate|].
      rewrite <- E. apply split_words.
    + destruct (split (d :: t)) as [|w ws] eqn:E;
        [exfalso; exact (@split_head_other d t Hd E)|].
      apply join_cons_head.
Qed.

Lemma squeeze_head_other (c : ascii) (t : str) :
  isspace c = false -> squeeze (c :: t) <> [].
Proof.
  intros Hc. rewrite squeeze_cons, Hc.
  destruct t as [|d t]; [discriminate|].
  destruct (isspace d); [destruct (squeeze (d :: t))|]; discriminate.
Qed.

Lemma squeeze_length_lead (s : str) :
  length (squeeze s) + (if starts_with_space s then 1 else 0) <= length s.
Proof.
  induction s as [|c t IH]; [simpl; lia|].
  rewrite squeeze_cons. cbn [starts_with_space length].
  destruct (isspace c); [lia|].
  destruct t as [|d t]; [simpl; lia|].
  cbn [starts_with_space] in IH.
  destruct (isspace d).
  - destruct (squeeze (d :: t)); cbn [length] in *; lia.
  - cbn [length] in *. lia.
Qed.

Lemma squeeze_length (s : str) : length (squeeze s) <= length s.
Proof. pose proof (squeeze_length_lead s). lia. Qed.

(** [rstrip], read from the front. *)
Lemma lstrip_snoc (y : str) (c : ascii) :
  lstrip (y ++ [c]) =
  match lstrip y with
  | [] => if isspace c then [] else [c]
  | _ :: _ => lstrip y ++ [c]
  end.
Proof.
  induction y as [|d y IH]; [reflexivity|].
  cbn [app lstrip]. destruct (isspace d); [exact IH | reflexivity].
Qed.

Lemma rstrip_cons (c : ascii) (x : str) :
  rstrip (c :: x) =
  match rstrip x with
  | [] => if isspace c then [] else [c]
  | _ :: _ => c :: rstrip x
  end.
Proof.
  unfold rstrip. cbn [rev]. rewrite lstrip_snoc.
  destruct (lstrip (rev x)) as [|d y] eqn:E;
    [now destruct (isspace c)|].
  rewrite rev_app_distr. change (rev [c]) with [c].
  destruct (rev (d :: y)) eqn:R; [|reflexivity].
  apply (f_equal (@rev _)) in R. rewrite rev_involutive in R. discriminate.
Qed.

Lemma lstrip_head (s : str) : starts_with_space (lstrip s) = false.
Proof.
  induction s as [|c t IH]; [reflexivity|].
  cbn [lstrip]. destruct (isspace c) eqn:Hc; [exact IH | exact Hc].
Qed.

Lemma squeeze_lstrip (s : str) : squeeze (lstrip s) = squeeze s.
Proof.
  induction s as [|c t IH]; [reflexivity|].
  cbn [lstrip]. destruct (isspace c) eqn:Hc; [|reflexivity].
  rewrite IH, (squeeze_cons c t), Hc. reflexivity.
Qed.

Lemma collapse_lstrip (s : str) :
  lstrip (collapse_whitespace s) = collapse_whitespace (lstrip s).
Proof.
  induction s as [|c t IH]; [reflexivity|].
  cbn [collapse_whitespace lstrip]. destruct (isspace c) eqn:Hc.
  - destruct t as [|d t]; [reflexivity|].
    destruct (isspace d) eqn:Hd; [exact IH|].
    cbn [lstrip]. rewrite space_isspace. exact IH.
  - cbn [lstrip collapse_whitespace]. rewrite !Hc. reflexivity.
Qed.

(** The collapsed text without its trailing space is the squeezed text,
    with one space in front when the text starts with whitespace. *)
Lemma rstrip_collapse (s : str) :
  rstrip (collapse_whitespace s) =
  match squeeze s with
  | [] => []
  | _ :: _ =>
      if starts_with_space s then " "%char :: squeeze s else squeeze s
  end.
Proof.
  induction s as [|c t IH]; [reflexivity|].
  cbn [collapse_whitespace starts_with_space].
  rewrite squeeze_cons. destruct (isspace c) eqn:Hc.
  - destruct t as [|d t]; [reflexivity|].
    cbn [starts_with_space] in IH.
    destruct (isspace d) eqn:Hd.
    + rewrite IH. reflexivity.
    + rewrite rstrip_cons, IH, space_isspace.
      destruct (squeeze (d :: t)) eqn:E; [|reflexivity].
      now apply squeeze_head_other in E.
  - rewrite rstrip_cons, IH, Hc.
    destruct t as [|d t]; [reflexivity|].
    cbn [starts_with_space].
    destruct (isspace d) eqn:Hd.
    + destruct (squeeze (d :: t)); reflexivity.
    + destruct (squeeze (d :: t)) eqn:E; [|reflexivity].
      now apply squeeze_head_other in E.
Qed.

(** [" ".join(text.split())] collapses the runs of whitespace and trims
    the text. *)
Lemma squeeze_collapse (s : str) :
  squeeze s = strip (collapse_whitespace s).
Proof.
  unfold strip. rewrite collapse_lstrip, rstrip_collapse.
  rewrite squeeze_lstrip, lstrip_head.
  now destruct (squeeze s).
Qed.

(* ================================================================= *)
(** ** Glued names *)





(* ================================================================= *)
(** ** Years *)

Lemma decimal_value (c : ascii) :
  isdecimal c = true -> (0 <= digit_value c <= 9)%Z.
Proof.
  unfold isdecimal, in_range, digit_value. intros H.
  apply andb_true_iff in H as [H1 H2].
  apply N.leb_le in H1, H2. lia.
Qed.

Lemma eqc_digit (c : ascii) (n : N) :
  (n <= 9)%N ->
  eqc c (chr (48 + n)) = (isdecimal c && (digit_value c =? Z.of_N n)%Z).
Proof.
  intros Hn.
  assert (Hcode : code (chr (48 + n)) = (48 + n)%N).
  { unfold code, chr. apply N_ascii_embedding. lia. }
  destruct (eqc c (chr (48 + n))) eqn:E.
  - apply eqc_true in E. subst c. unfold isdecimal, in_range, digit_value.
    rewrite Hcode. symmetry. apply andb_true_iff. split.
    + apply andb_true_iff. split; apply N.leb_le; lia.
    + apply Z.eqb_eq. lia.
  - symmetry. apply not_true_is_false. intros H.
    apply andb_true_iff in H as [_ H]. apply Z.eqb_eq in H.
    unfold digit_value in H.
    assert (Hc : code c = (48 + n)%N) by lia.
    assert (c = chr (48 + n)).
    { unfold code, chr in *. rewrite <- Hc. symmetry. apply ascii_N_embedding. }
    subst c. now rewrite eqc_refl in E.
Qed.

Lemma int_of_four (a b c d : ascii) :
  int_of_digits [a; b; c; d] =
  (1000 * digit_value a + 100 * digit_value b
   + 10 * digit_value c + digit_value d)%Z.
Proof. unfold int_of_digits. cbn [fold_left]. lia. Qed.

(** The alternation [1[89]\d{2}|20\d{2}] matches the four-digit numbers
    from 1800 to 2099. *)
Lemma year_pattern (a b c d : ascii) :
  (eqc a "1" && (eqc b "8" || eqc b "9") || eqc a "2" && eqc b "0")
  && isdecimal c && isdecimal d = true
  <-> forallb isdecimal [a; b; c; d] = true
      /\ (1800 <= int_of_digits [a; b; c; d] <= 2099)%Z.
Proof.
  rewrite int_of_four. cbn [forallb].
  change "1"%char with (chr (48 + 1)). change "8"%char with (chr (48 + 8)).
  change "9"%char with (chr (48 + 9)). change "2"%char with (chr (48 + 2)).
  change "0"%char with (chr (48 + 0)).
  rewrite !eqc_digit by lia.
  destruct (isdecimal a) eqn:Ha; [|cbn; split; [discriminate | intros [[=] _]]].
  destruct (isdecimal b) eqn:Hb;
    [|cbn; rewrite !andb_false_r; cbn; split; [discriminate | intros [[=] _]]].
  destruct (isdecimal c) eqn:Hc;
    [|cbn; rewrite !andb_false_r; cbn; split; [discriminate | intros [[=] _]]].
  destruct (isdecimal d) eqn:Hd;
    [|cbn; rewrite !andb_false_r; cbn; split; [discriminate | intros [[=] _]]].
  apply decimal_value in Ha, Hb, Hc, Hd.
  cbn [andb]. rewrite !andb_true_r.
  split.
  - intros H. split; [reflexivity|].
    apply orb_true_iff in H as [H | H];
      apply andb_true_iff in H as [H1 H2];
      rewrite ?orb_true_iff, ?Z.eqb_eq in *; lia.
  - intros [_ H]. apply orb_true_iff.
    rewrite !andb_true_iff, orb_true_iff, !Z.eqb_eq. lia.
Qed.

Lemma skipn_cons_nth {A} (l : list A) (i : nat) (c : A) (t : list A) :
  skipn i l = c :: t -> nth_error l i = Some c /\ skipn (S i) l = t.
Proof.
  revert i. induction l as [|x l IH]; intros [|i]; cbn; try discriminate.
  - intros [= -> ->]. auto.
  - apply IH.
Qed.

Lemma nth_error_behind {A} (l : list A) (i k : nat) :
  nth_error (skipn i l) k = nth_error l (i + k).
Proof.
  revert i. induction l as [|x l IH]; intros [|i]; cbn; try reflexivity.
  - now destruct k.
  - apply IH.
Qed.

(** At a place of the text, the pattern matches exactly when a year
    stands there. *)
Lemma match_year_at (w : str) (i : nat) :
  match match_year (char_before w i) (skipn i w) with
  | Some m => m = firstn 4 (skipn i w) /\ year_at w i (int_of_digits m)
  | None => forall y, ~ year_at w i y
  end.
Proof.
  destruct (skipn i w) as [|a [|b [|c [|d rest]]]] eqn:E;
    try (cbn; intros y (? & ? & ? & ? & H & _); rewrite E in H;
         discriminate).
  assert (Hnext : nth_error w (i + 4) = hd_error rest).
  { rewrite <- nth_error_behind, E. now destruct rest. }
  cbn [match_year].
  destruct (word_boundary (char_before w i) (Some a)
            && ((eqc a "1" && (eqc b "8" || eqc b "9")
                 || eqc a "2" && eqc b "0") && isdecimal c && isdecimal d)
            && word_boundary (Some d) (hd_error rest)) eqn:M.
  - apply andb_true_iff in M as [M Hb2].
    apply andb_true_iff in M as [Hb1 M].
    apply year_pattern in M as [Hd Hy].
    split; [reflexivity|].
    exists a, b, c, d. rewrite E. repeat split; try tauto; try reflexivity.
    + cbn [forallb] in Hd. apply andb_true_iff in Hd as [Ha _].
      apply decimal_isword in Ha. unfold word_boundary in Hb1.
      cbn [isword_at] in Hb1. rewrite Ha in Hb1.
      now destruct (isword_at (char_before w i)).
    + rewrite Hnext. cbn [forallb] in Hd.
      rewrite !andb_true_iff in Hd. destruct Hd as (_ & _ & _ & Hd & _).
      apply decimal_isword in Hd. unfold word_boundary in Hb2.
      cbn [isword_at] in Hb2. rewrite Hd in Hb2.
      now destruct (isword_at (hd_error rest)).
  - intros y (a' & b' & c' & d' & Hf & Hd & -> & Hy & Hb1 & Hb2).
    rewrite E in Hf. cbn in Hf. injection Hf as <- <- <- <-.
    assert (P := proj2 (year_pattern a b c d) (conj Hd Hy)).
    rewrite Hnext in Hb2. cbn [forallb] in Hd.
    rewrite !andb_true_iff in Hd. destruct Hd as (Ha & _ & _ & Hd' & _).
    apply decimal_isword in Ha, Hd'.
    unfold word_boundary in M. cbn [isword_at] in M.
    rewrite Ha, Hd', Hb1, Hb2 in M. cbn [xorb] in M.
    rewrite andb_true_r in M. cbn [andb] in M. congruence.
Qed.

(** The search finds the leftmost place where a year stands. *)
Lemma search_year_from_leftmost (w : str) (s : str) :
  forall i, s = skipn i w ->
  match search_year_from (char_before w i) s with
  | Some m =>
      exists j, i <= j /\ year_at w j (int_of_digits m)
                /\ forall k y, i <= k < j -> ~ year_at w k y
  | None => forall k y, i <= k -> ~ year_at w k y
  end.
Proof.
  induction s as [|c t IH]; intros i Hs.
  - cbn. intros k y Hik (a & b & c & d & Hf & _).
    assert (Hk : skipn k w = []).
    { apply skipn_all2. assert (length (skipn i w) = 0) by now rewrite <- Hs.
      rewrite length_skipn in H. lia. }
    rewrite Hk in Hf. discriminate.
  - cbn [search_year_from].
    pose proof (match_year_at w i) as M. rewrite <- Hs in M.
    destruct (match_year (char_before w i) (c :: t)) as [m|].
    + destruct M as [_ M]. exists i. split; [lia|]. split; [exact M|].
      intros; lia.
    + symmetry in Hs. apply skipn_cons_nth in Hs as [Hc Ht].
      specialize (IH (S i) (eq_sym Ht)). cbn [char_before] in IH.
      rewrite Hc in IH.
      destruct (search_year_from (Some c) t) as [m|].
      * destruct IH as (j & Hj & Hy & Hmin). exists j.
        split; [lia|]. split; [exact Hy|].
        intros k y Hk. destruct (Nat.eq_dec k i) as [->|]; [apply M|].
        apply Hmin. lia.
      * intros k y Hk. destruct (Nat.eq_dec k i) as [->|]; [apply M|].
        apply IH. lia.
Qed.

Lemma search_year_leftmost (s : str) :
  match search_year s with
  | Some m =>
      exists i, year_at s i (int_of_digits m)
                /\ forall j y, j < i -> ~ year_at s j y
  | None => forall i y, ~ year_at s i y
  end.
Proof.
  pose proof (@search_year_from_leftmost s s 0 eq_refl) as H.
  unfold search_year. cbn [char_before] in H.
  destruct (search_year_from None s) as [m|].
  - destruct H as (j & _ & Hy & Hmin). exists j. split; [exact Hy|].
    intros k y Hk. apply Hmin. lia.
  - intros i y. apply H. lia.
Qed.

(** The first piece of a split is the text before the first delimiter. *)
Lemma re_split_first (s : str) :
  exists ps, re_split is_newline_or_semicolon s = first_segment s :: ps.
Proof.
  unfold re_split. induction s as [|c t [ps IH]]; cbn; [now exists []|].
  destruct (is_newline_or_semicolon c); [eauto|].
  rewrite IH. eauto.
Qed.

(* ================================================================= *)
(** ** Cells *)

Lemma without_sups_name (names : list str) (n : node) :
  is_named names (without_sups n) = is_named names n.
Proof. destruct n; reflexivity. Qed.

Lemma has_sup_children (name : str) attrs (cs : list node) :
  has_sup (Tag name attrs cs) =
  existsb (fun c => is_named [lit "sup"] c || has_sup c) cs.
Proof.
  unfold has_sup. cbn [descendants].
  induction cs as [|c cs IH]; [reflexivity|].
  cbn [flat_map app existsb]. rewrite existsb_app, IH.
  now rewrite orb_assoc.
Qed.

(** No [sup] element is left below the cell. *)
Lemma without_sups_clean (n : node) : has_sup (without_sups n) = false.
Proof.
  induction n as [s | name attrs cs IH] using node_induction;
    [reflexivity|].
  cbn [without_sups]. rewrite has_sup_children.
  induction IH as [|c cs Hc _ IHcs]; [reflexivity|].
  cbn [flat_map]. destruct (is_named [lit "sup"] c) eqn:E; [exact IHcs|].
  cbn [app existsb]. now rewrite without_sups_name, E, Hc, IHcs.
Qed.

Lemma without_sups_idempotent (n : node) :
  without_sups (without_sups n) = without_sups n.
Proof.
  induction n as [s | name attrs cs IH] using node_induction;
    [reflexivity|].
  cbn [without_sups]. f_equal.
  induction IH as [|c cs Hc _ IHcs]; [reflexivity|].
  cbn [flat_map]. destruct (is_named [lit "sup"] c) eqn:E; [exact IHcs|].
  cbn [app flat_map]. now rewrite without_sups_name, E, Hc, IHcs.
Qed.

Lemma without_sups_changes (n : node) :
  has_sup n = true -> without_sups n <> n.
Proof.
  intros H E. pose proof (without_sups_clean n) as C.
  rewrite E in C. congruence.
Qed.

(** The extractors, with the cell passed along written out. *)

Lemma extract_first_value_from_cell_run (td : node) :
  extract_first_value_from_cell td =
  (match first_value (children (without_sups td)) with
   | Some v => v
   | None => clean_text (get_text (lit " ") true (without_sups td))
   end, without_sups td).
Proof.
  unfold extract_first_value_from_cell, bind, remove_sup_tags, ret.
  now destruct (first_value (children (without_sups td))).
Qed.

Lemma extract_director_run (td : node) :
  extract_director td =
  (match find [lit "a"] (without_sups td) with
   | Some a_tag => fix_glued_names (clean_text (get_text [] true a_tag))
   | None =>
       fix_glued_names
         (returns extract_first_value_from_cell (without_sups td))
   end, without_sups td).
Proof.
  unfold extract_director, bind, remove_sup_tags, ret, returns.
  destruct (find [lit "a"] (without_sups td)); [reflexivity|].
  rewrite extract_first_value_from_cell_run, without_sups_idempotent.
  reflexivity.
Qed.

Lemma extract_release_year_run (td : node) :
  extract_release_year td =
  (match re_split is_newline_or_semicolon
           (clean_text (get_text (lit " ") true (without_sups td))) with
   | part0 :: _ =>
       match search_year part0 with
       | Some m => Some (int_of_digits m)
       | None => None
       end
   | [] => None
   end, without_sups td).
Proof.
  unfold extract_release_year, bind, remove_sup_tags, ret.
  destruct (re_split _ _) as [|part0 ?]; [reflexivity|].
  now destruct (search_year part0).
Qed.

Lemma extract_box_office_leaves (td : node) :
  leaves extract_box_office td = without_sups td.
Proof.
  unfold leaves, extract_box_office, bind, remove_sup_tags, ret.
  destruct (search_amount _) as [[amount behind]|]; [reflexivity|].
  now destruct (re_split _ _).
Qed.

(** The loop of the cell value selector stops at the first child that is
    no style or script element and has text. *)
Lemma first_value_find (cs : list node) :
  first_value cs =
  option_map (fun child => clean_text (child_text child))
    (List.find (fun child =>
                  negb (is_named [lit "style"; lit "script"] child)
                  && truthy (child_text child)) cs).
Proof.
  induction cs as [|child rest IH]; [reflexivity|].
  cbn [first_value List.find].
  destruct (is_named [lit "style"; lit "script"] child); [exact IH|].
  cbn [negb andb].
  destruct child as [s | name attrs cs]; cbn [child_text];
    match goal with |- context [truthy ?t] => destruct (truthy t) end;
    (reflexivity || exact IH).
Qed.

Lemma fields_ext (d1 d2 : ascii -> bool) (s : str) :
  Forall (fun c => d1 c = d2 c) s -> fields d1 s = fields d2 s.
Proof.
  induction 1 as [|c t Hc _ IH]; [reflexivity|].
  cbn [fields]. now rewrite Hc, IH.
Qed.

(** Normalized text holds no newline; splitting it on newlines or
    semicolons is splitting it on semicolons. *)
Lemma re_split_clean_text (s : str) :
  re_split is_newline_or_semicolon (clean_text s)
  = re_split (fun c => eqc c ";"%char) (clean_text s).
Proof.
  apply fields_ext. eapply Forall_impl; [|apply clean_text_chars].
  intros c Hc. unfold is_newline_or_semicolon.
  destruct (eqc c newline) eqn:E; [|reflexivity].
  apply eqc_true in E. subst c. destruct Hc as [Hc | Hc]; discriminate.
Qed.

(* ================================================================= *)
(** ** The properties of the normalizer *)

(** C6.  The normalizer removes the footnote markers, collapses the runs
    of whitespace and trims the text: [clean_text] is the removal of the
    markers followed by the collapse of every run of whitespace into one
    space and the trimming of both ends; every occurrence of a bracketed
    integer in the text is removed, what stands in front of it and behind
    it being scanned apart; a text without any occurrence goes through the
    removal as it is.  ["Revenue[2][13]"] becomes ["Revenue"] and
    ["A   B\n\tC"] becomes ["A B C"]. *)
Theorem clean_text_normalizes :
  (forall text,
      clean_text text = strip (collapse_whitespace (sub_markers text)))
  /\ (forall a m b,
         bracketed_integer m ->
         sub_markers (a ++ m ++ b) = sub_markers a ++ sub_markers b)
  /\ (forall s,
         (forall a m b, bracketed_integer m -> s <> a ++ m ++ b) ->
         sub_markers s = s)
  /\ clean_text (lit "Revenue[2][13]") = lit "Revenue"
  /\ clean_text (lit "A   B" ++ [newline; tab] ++ lit "C") = lit "A B C".
Proof.
  split; [|split; [|split; [|split]]].
  - intros text. apply (squeeze_collapse (sub_markers text)).
  - intros a m b Hm. now apply sub_markers_occurrence.
  - intros s Hs. apply sub_markers_none.
    destruct (has_marker s) eqn:E; [|reflexivity].
    apply has_marker_true in E as (a & m & b & Hm & ->).
    now destruct (Hs a m b Hm).
  - reflexivity.
  - reflexivity.
Qed.

Lemma clean_text_normalizes_witness :
  sub_markers (lit "Revenue" ++ lit "[2]" ++ lit "[13]")
  = sub_markers (lit "Revenue") ++ sub_markers (lit "[13]")
  /\ sub_markers (lit "Revenue") = lit "Revenue".
Proof.
  destruct clean_text_normalizes as (_ & Hremoved & Hkept & _). split.
  - apply Hremoved. exists (lit "2"). repeat split. discriminate.
  - apply Hkept. intros a m b Hm E.
    assert (H : has_marker (lit "Revenue") = true)
      by (apply has_marker_true; now exists a, m, b).
    discriminate H.
Defined.

(** C5, as stated, fails: from ["[[1]2]"] the normalizer makes ["[2]"],
    and from ["[2]"] it makes the empty string. *)
Lemma clean_text_not_idempotent :
  clean_text (lit "[[1]2]") = lit "[2]"
  /\ clean_text (clean_text (lit "[[1]2]")) = []
  /\ clean_text (clean_text (lit "[[1]2]")) <> clean_text (lit "[[1]2]").
Proof. repeat split. discriminate. Qed.

(** C5, amended.  Normalizing a normalized string gives the same string
    exactly when the normalized string holds no footnote marker: the
    removal of the markers runs once, and a marker that the removal itself
    forms stays behind. *)
Theorem clean_text_idempotent_iff (s : str) :
  clean_text (clean_text s) = clean_text s
  <-> has_marker (clean_text s) = false.
Proof.
  split.
  - intros H. destruct (has_marker (clean_text s)) eqn:E; [|reflexivity].
    exfalso. apply sub_markers_length in E.
    pose proof (squeeze_length (sub_markers (clean_text s))) as L.
    unfold squeeze in L. fold (clean_text (clean_text s)) in L.
    rewrite H in L. lia.
  - intros H. unfold clean_text at 1. rewrite sub_markers_none by exact H.
    apply join_split_idempotent.
Qed.

Lemma clean_text_idempotent_iff_witness :
  has_marker (clean_text (lit "Revenue[2][13]")) = false
  /\ clean_text (clean_text (lit "Revenue[2][13]"))
     = clean_text (lit "Revenue[2][13]").
Proof.
  split; [reflexivity|].
  apply (proj2 (clean_text_idempotent_iff (lit "Revenue[2][13]"))).
  reflexivity.
Defined.



(* ================================================================= *)
(** ** The properties of the field extractors *)

(** C1, as stated, fails: on the cell with the text nodes ["$2"], [".264"]
    and [" billion"] the extractor does not return ["$2.264 billion"]. *)
Lemma box_office_split_amount_differs :
  strings split_amount_cell = [lit "$2"; lit ".264"; lit " billion"]
  /\ stripped_strings (without_sups split_amount_cell)
     = [lit "$2"; lit ".264"; lit "billion"]
  /\ returns extract_box_office split_amount_cell <> lit "$2.264 billion".
Proof. repeat split. discriminate. Qed.

(** C1, amended.  For a box-office cell whose stripped text fragments are
    ["$2"], [".264"] and ["billion"], the extractor joins the fragments
    with single spaces into ["$2 .264 billion"], finds the amount ["$2"]
    (the amount ends at the space) and the unit ["billion"], and returns
    ["$2 billion"]. *)
Theorem box_office_split_amount (td : node) :
  stripped_strings (without_sups td) = [lit "$2"; lit ".264"; lit "billion"] ->
  join (lit " ") (stripped_strings (without_sups td)) = lit "$2 .264 billion"
  /\ search_amount (lit "$2 .264 billion")
     = Some (lit "$2", lit " .264 billion")
  /\ contains (lit "billion") (lower (lit " .264 billion")) = true
  /\ returns extract_box_office td = lit "$2 billion".
Proof.
  intros H. split; [now rewrite H|]. split; [reflexivity|].
  split; [reflexivity|].
  unfold returns, extract_box_office, bind, remove_sup_tags.
  rewrite H. reflexivity.
Qed.

Lemma box_office_split_amount_witness :
  returns extract_box_office split_amount_cell = lit "$2 billion".
Proof.
  apply (box_office_split_amount split_amount_cell). reflexivity.
Defined.

(** C4.  The release-year extractor normalizes the text of the cell and
    looks at the segment before the first newline or semicolon; it returns
    the value of the leftmost year of that segment (four digits standing
    alone, between 1800 and 2099), or nothing when no year stands in the
    segment.  The cell ["June 20, 1975 (1975-06-20)\nNovember 1976"]
    gives 1975. *)
Theorem extract_release_year_first_year :
  (forall td,
      let segment :=
        first_segment
          (clean_text (get_text (lit " ") true (without_sups td))) in
      match returns extract_release_year td with
      | Some y =>
          exists i, year_at segment i y
                    /\ forall j y', j < i -> ~ year_at segment j y'
      | None => forall i y, ~ year_at segment i y
      end)
  /\ returns extract_release_year jaws_release_cell = Some 1975%Z.
Proof.
  split; [|reflexivity].
  intros td segment. unfold returns. rewrite extract_release_year_run.
  cbn [fst].
  destruct (re_split_first
              (clean_text (get_text (lit " ") true (without_sups td))))
    as [ps ->].
  fold segment. pose proof (search_year_leftmost segment) as H.
  now destruct (search_year segment).
Qed.

(** C9.  In the release-year extractor the newline is no delimiter that
    can occur: the extractor equals the one that splits the normalized
    text on semicolons only, and a year behind a newline of the cell is
    found when the first line holds none. *)
Theorem extract_release_year_newline_dead :
  (forall td, extract_release_year td = extract_release_year_semicolon td)
  /\ strings second_line_cell = [lit "TBA" ++ [newline] ++ lit "1999"]
  /\ returns extract_release_year second_line_cell = Some 1999%Z.
Proof.
  split; [|split; reflexivity].
  intros td.
  unfold extract_release_year, extract_release_year_semicolon, bind,
    remove_sup_tags.
  now rewrite re_split_clean_text.
Qed.

(** C8.  On a cell without its footnote markers, the cell value selector
    returns the normalized text of the first direct child that is no style
    or script element and has text (the stripped text of a text node, the
    stripped texts below an element joined by spaces), and the normalized
    text of the whole cell when no direct child has text. *)
Theorem extract_first_value_first_child (td : node) :
  returns extract_first_value_from_cell td
  = first_child_value (without_sups td).
Proof.
  unfold returns. rewrite extract_first_value_from_cell_run. cbn [fst].
  unfold first_child_value. rewrite first_value_find.
  now destruct (List.find _ _).
Qed.

(** C10.  The cell value selector and the four field extractors change
    the cell they are given: the cell they leave is the cell without any
    [sup] element, which differs from the cell passed in whenever that one
    holds a [sup] element. *)
Theorem extractors_remove_sup_elements (td : node) :
  Forall (fun td' =>
            td' = without_sups td
            /\ has_sup td' = false
            /\ (has_sup td = true -> td' <> td))
         [leaves extract_director td;
          leaves extract_country td;
          leaves extract_release_year td;
          leaves extract_box_office td;
          leaves extract_first_value_from_cell td].
Proof.
  assert (H : forall td', td' = without_sups td ->
                          td' = without_sups td
                          /\ has_sup td' = false
                          /\ (has_sup td = true -> td' <> td)).
  { intros td' ->. split; [reflexivity|].
    split; [apply without_sups_clean | apply without_sups_changes]. }
  repeat apply Forall_cons; try apply Forall_nil; apply H; unfold leaves.
  - now rewrite extract_director_run.
  - change (extract_country td) with (extract_director td).
    now rewrite extract_director_run.
  - now rewrite extract_release_year_run.
  - apply extract_box_office_leaves.
  - now rewrite extract_first_value_from_cell_run.
Qed.

Lemma extractors_remove_sup_elements_witness :
  has_sup footnoted_cell = true
  /\ leaves extract_director footnoted_cell <> footnoted_cell.
Proof.
  split; [reflexivity|].
  pose proof (extractors_remove_sup_elements footnoted_cell) as H.
  inversion H as [|? ? (_ & _ & Hd) _]. apply Hd. reflexivity.
Defined.

(* ================================================================= *)
(** ** Changes in place *)

Lemma size_positive (n : node) : 1 <= size n.
Proof. destruct n; simpl; lia. Qed.

Lemma list_sum_step (x : nat) (l : list nat) :
  list_sum (x :: l) = x + list_sum l.
Proof. reflexivity. Qed.

Lemma forest_size_app (a b : list node) :
  forest_size (a ++ b) = forest_size a + forest_size b.
Proof. unfold forest_size. now rewrite map_app, list_sum_app. Qed.

Lemma below_children (names : list str) name attrs (cs : list node) :
  below names (Tag name attrs cs) =
  existsb (fun c => is_named names c || below names c) cs.
Proof.
  unfold below. cbn [descendants].
  induction cs as [|c cs IH]; [reflexivity|].
  cbn [flat_map app existsb]. rewrite existsb_app, IH.
  now rewrite orb_assoc.
Qed.

Lemma without_sups_size (n : node) : size (without_sups n) <= size n.
Proof.
  induction n as [s | name attrs cs IH] using node_induction; [simpl; lia|].
  cbn [without_sups size]. apply le_n_S.
  induction IH as [|c cs Hc _ IHcs]; [simpl; lia|].
  cbn [flat_map map]; rewrite ?list_sum_step.
  destruct (is_named [lit "sup"] c); cbn [app map]; rewrite ?list_sum_step; lia.
Qed.

Lemma without_sups_below (names : list str) (n : node) :
  below names (without_sups n) = true -> below names n = true.
Proof.
  induction n as [s | name attrs cs IH] using node_induction; [easy|].
  cbn [without_sups]. rewrite !below_children.
  induction IH as [|c cs Hc _ IHcs]; [easy|].
  cbn [flat_map existsb].
  destruct (is_named [lit "sup"] c).
  - intros H. rewrite (IHcs H). apply orb_true_r.
  - cbn [app existsb]. rewrite without_sups_name.
    intros H. apply orb_true_iff in H as [H | H].
    + apply orb_true_iff in H as [H | H]; [now rewrite H|].
      rewrite (Hc H). now rewrite orb_true_r.
    + rewrite (IHcs H). apply orb_true_r.
Qed.

Section Change.

Variables (names : list str) (f : node -> node).

(** The root of a tree is not touched by a change below it. *)
Lemma change_first_root (ns : list str) (n : node) :
  is_named ns (fst (change_first names f n)) = is_named ns n.
Proof.
  destruct n as [s | name attrs cs]; [reflexivity|].
  cbn [change_first].
  now destruct (change_within names f (change_first names f) cs).
Qed.

Hypothesis f_size : forall m, size (f m) <= size m.

Lemma change_first_size (n : node) :
  size (fst (change_first names f n)) <= size n.
Proof.
  induction n as [s | name attrs cs IH] using node_induction; [simpl; lia|].
  cbn [change_first].
  destruct (change_within names f (change_first names f) cs)
    as [cs' found] eqn:E.
  cbn [fst size]. apply le_n_S. revert cs' found E.
  induction IH as [|c cs Hc _ IHcs]; intros cs' found E.
  - injection E as <- _. simpl. lia.
  - cbn [change_within] in E. fold (change_within names f (change_first names f)) in E.
    destruct (is_named names c).
    + injection E as <- _. cbn [map]; rewrite ?list_sum_step. specialize (f_size c). lia.
    + destruct (change_first names f c) as [c' fc]. cbn [fst] in Hc.
      destruct fc.
      * injection E as <- _. cbn [map]; rewrite ?list_sum_step. lia.
      * destruct (change_within names f (change_first names f) cs)
          as [r' fr].
        injection E as <- _. specialize (IHcs r' fr eq_refl).
        cbn [map]; rewrite ?list_sum_step. lia.
Qed.

Variable ns : list str.
Hypothesis f_name : forall m, is_named ns (f m) = is_named ns m.
Hypothesis f_below : forall m, below ns (f m) = true -> below ns m = true.

(** A change that brings no element of the names [ns] brings none below
    the tree. *)
Lemma change_first_below (n : node) :
  below ns (fst (change_first names f n)) = true -> below ns n = true.
Proof.
  induction n as [s | name attrs cs IH] using node_induction; [easy|].
  cbn [change_first].
  destruct (change_within names f (change_first names f) cs)
    as [cs' found] eqn:E.
  cbn [fst]. rewrite !below_children. revert cs' found E.
  induction IH as [|c cs Hc _ IHcs]; intros cs' found E.
  - now injection E as <- _.
  - cbn [change_within] in E. fold (change_within names f (change_first names f)) in E.
    destruct (is_named names c).
    + injection E as <- _. cbn [existsb]. rewrite f_name. intros H.
      apply orb_true_iff in H as [H | H]; [|now rewrite H, orb_true_r].
      apply orb_true_iff in H as [H | H]; [now rewrite H|].
      now rewrite (f_below _ H), orb_true_r.
    + pose proof (change_first_root ns c) as R.
      destruct (change_first names f c) as [c' fc]. cbn [fst] in Hc, R.
      destruct fc.
      * injection E as <- _. cbn [existsb]. rewrite R. intros H.
        apply orb_true_iff in H as [H | H]; [|now rewrite H, orb_true_r].
        apply orb_true_iff in H as [H | H]; [now rewrite H|].
        now rewrite (Hc H), orb_true_r.
      * destruct (change_within names f (change_first names f) cs)
          as [r' fr].
        injection E as <- _. specialize (IHcs r' fr eq_refl).
        cbn [existsb]. intros H.
        apply orb_true_iff in H as [H | H]; [now rewrite H|].
        now rewrite (IHcs H), orb_true_r.
Qed.

End Change.

Lemma find_app_first {A} (p : A -> bool) (a b : list A) :
  List.find p (a ++ b) =
  match List.find p a with
  | Some x => Some x
  | None => List.find p b
  end.
Proof.
  induction a as [|x a IH]; [reflexivity|].
  cbn [app List.find]. now destruct (p x).
Qed.

Section ChangeFound.

Variables (names : list str) (f : node -> node).
Hypothesis f_name : forall m, is_named names (f m) = is_named names m.

(** The node changed is the node that [find] gives: behind the change,
    [find] gives the changed node; and without such a node the tree stays
    as it is. *)
Lemma change_first_find (n : node) :
  find names (fst (change_first names f n)) = option_map f (find names n)
  /\ (snd (change_first names f n) = false ->
      find names n = None /\ fst (change_first names f n) = n)
  /\ (snd (change_first names f n) = true -> find names n <> None).
Proof.
  unfold find.
  induction n as [s | name attrs cs IH] using node_induction;
    [cbn; repeat split; congruence|].
  cbn [change_first descendants].
  destruct (change_within names f (change_first names f) cs)
    as [cs' found] eqn:E.
  cbn [fst snd descendants].
  enough (H : List.find (is_named names)
                (flat_map (fun c => c :: descendants c) cs')
              = option_map f
                  (List.find (is_named names)
                     (flat_map (fun c => c :: descendants c) cs))
              /\ (found = false ->
                  List.find (is_named names)
                    (flat_map (fun c => c :: descendants c) cs) = None
                  /\ cs' = cs)
              /\ (found = true ->
                  List.find (is_named names)
                    (flat_map (fun c => c :: descendants c) cs) <> None)).
  { destruct H as (H1 & H2 & H3). repeat split; auto.
    - now apply H2.
    - f_equal. now apply H2. }
  revert cs' found E.
  induction IH as [|c cs Hc _ IHcs]; intros cs' found E.
  - injection E as <- <-. repeat split; congruence.
  - cbn [change_within] in E.
    fold (change_within names f (change_first names f)) in E.
    cbn [flat_map app List.find].
    destruct (is_named names c) eqn:Hn.
    + injection E as <- <-. cbn [flat_map app List.find].
      rewrite f_name, Hn. repeat split; congruence.
    + pose proof (change_first_root names f names c) as R.
      destruct (change_first names f c) as [c' fc].
      cbn [fst snd] in Hc, R. destruct Hc as (Hc1 & Hc2 & Hc3).
      rewrite find_app_first.
      destruct fc.
      * injection E as <- <-. cbn [flat_map app List.find].
        rewrite R, Hn, find_app_first, Hc1.
        specialize (Hc3 eq_refl).
        destruct (List.find (is_named names) (descendants c));
          [|contradiction].
        repeat split; congruence.
      * destruct (Hc2 eq_refl) as [Hnone ->]. rewrite Hnone.
        destruct (change_within names f (change_first names f) cs)
          as [r' fr].
        injection E as <- <-.
        destruct (IHcs r' fr eq_refl) as (H1 & H2 & H3).
        cbn [flat_map app List.find]. rewrite Hn, find_app_first, Hnone.
        repeat split; auto.
        -- now apply H2.
        -- f_equal. now apply H2.
Qed.

End ChangeFound.

(* ================================================================= *)
(** ** Detail page *)

Lemma labelled_cell_td (row : node) (l : label) (c : node) :
  labelled_cell row = Some (l, c) -> find [lit "td"] row = Some c.
Proof.
  unfold labelled_cell.
  destruct (find [lit "th"] row); [|discriminate].
  destruct (find [lit "td"] row); [|discriminate].
  destruct (header_label _); [|discriminate]. congruence.
Qed.

Lemma leaves_director (m : node) : leaves extract_director m = without_sups m.
Proof. unfold leaves. now rewrite extract_director_run. Qed.

Lemma leaves_release_year (m : node) :
  leaves extract_release_year m = without_sups m.
Proof. unfold leaves. now rewrite extract_release_year_run. Qed.

(** The row behind a turn of the loop: a row that matches a label has its
    data cell changed by the extractor, which takes the [sup] elements
    out; any other row is as it was. *)
Lemma info_row_row (info : Info.t) (row : node) :
  exists f, (forall m, f m = without_sups m)
            /\ snd (info_row info row)
               = match labelled_cell row with
                 | Some _ => fst (change_first [lit "td"] f row)
                 | None => row
                 end.
Proof.
  unfold info_row, call_on_cell, labelled_cell, header_label.
  destruct (find [lit "th"] row) as [header|];
    [|now exists without_sups].
  destruct (find [lit "td"] row) as [data_cell|];
    [|now exists without_sups].
  destruct (contains (lit "directed by") _);
    [exists (leaves extract_director); split;
     [apply leaves_director | reflexivity]|].
  destruct (contains (lit "release date") _);
    [exists (leaves extract_release_year); split;
     [apply leaves_release_year | reflexivity]|].
  destruct (existsb _ _);
    [exists (leaves extract_country); split;
     [apply leaves_director | reflexivity]|].
  destruct (contains (lit "box office") _);
    [exists (leaves extract_box_office); split;
     [apply extract_box_office_leaves | reflexivity]|].
  now exists without_sups.
Qed.

Lemma info_row_leaves (info : Info.t) (row : node) :
  snd (info_row info row) = row
  \/ exists f, (forall m, f m = without_sups m)
               /\ snd (info_row info row)
                  = fst (change_first [lit "td"] f row).
Proof.
  destruct (info_row_row info row) as (f & Hf & H).
  destruct (labelled_cell row); [right; now exists f | now left].
Qed.

(** Behind the turn of a row that matches a label, the data cell of the
    row is the data cell without its [sup] elements. *)
Lemma info_row_cell (info : Info.t) (row : node) (l : label) (c : node) :
  labelled_cell row = Some (l, c) ->
  find [lit "td"] (snd (info_row info row)) = Some (without_sups c).
Proof.
  intros H. destruct (info_row_row info row) as (f & Hf & E).
  rewrite H in E. rewrite E.
  destruct (@change_first_find [lit "td"] f
              ltac:(intros m; rewrite Hf; apply without_sups_name) row)
    as (F & _).
  rewrite F. apply labelled_cell_td in H. rewrite H. cbn. now rewrite Hf.
Qed.

Lemma info_row_size (info : Info.t) (row : node) :
  size (snd (info_row info row)) <= size row.
Proof.
  destruct (info_row_leaves info row) as [-> | (f & Hf & ->)]; [lia|].
  apply change_first_size. intros m. rewrite Hf. apply without_sups_size.
Qed.

Lemma info_row_below (ns : list str) (info : Info.t) (row : node) :
  below ns (snd (info_row info row)) = true -> below ns row = true.
Proof.
  destruct (info_row_leaves info row) as [-> | (f & Hf & ->)]; [easy|].
  apply change_first_below.
  - intros m. rewrite Hf. apply without_sups_name.
  - intros m. rewrite Hf. apply without_sups_below.
Qed.

Lemma children_size (n : node) : forest_size (children n) < size n.
Proof. destruct n; unfold forest_size; simpl; lia. Qed.

Lemma rows_of_app (a b : list node) : rows_of (a ++ b) = rows_of a ++ rows_of b.
Proof. unfold rows_of. now rewrite flat_map_app, filter_app. Qed.

Lemma rows_of_cons (n : node) (rest : list node) :
  rows_of (n :: rest) =
  (if is_named [lit "tr"] n then [n] else [])
  ++ rows_of (children n) ++ rows_of rest.
Proof.
  unfold rows_of. cbn [flat_map app filter]. rewrite filter_app.
  replace (descendants n)
    with (flat_map (fun c => c :: descendants c) (children n))
    by now destruct n.
  now destruct (is_named [lit "tr"] n).
Qed.

Lemma not_below_rows (n : node) :
  below [lit "tr"] n = false -> rows_of (children n) = [].
Proof.
  unfold below, rows_of.
  replace (descendants n)
    with (flat_map (fun c => c :: descendants c) (children n))
    by now destruct n.
  induction (flat_map _ (children n)) as [|x l IH]; [reflexivity|].
  cbn [existsb filter]. intros H. apply orb_false_iff in H as [-> H]. auto.
Qed.

Lemma find_none_below (names : list str) (n : node) :
  find names n = None <-> below names n = false.
Proof.
  unfold find, below. induction (descendants n) as [|x l IH]; [easy|].
  cbn [List.find existsb]. destruct (is_named names x); [easy|]. exact IH.
Qed.

(** With no row inside another one, the loop is the loop over the rows
    found before it, each row taken as it was found. *)
Lemma info_rows_apart (fuel : nat) (forest : list node) (info : Info.t) :
  forest_size forest <= fuel ->
  forallb (fun row => negb (below [lit "tr"] row)) (rows_of forest) = true ->
  info_rows fuel forest info = fold_left info_turn (rows_of forest) info.
Proof.
  revert forest info. induction fuel as [|fuel IH]; intros forest info Hsize Hrows.
  - destruct forest as [|n rest]; [reflexivity|].
    unfold forest_size in Hsize. cbn [map] in Hsize.
    rewrite list_sum_step in Hsize. pose proof (size_positive n). lia.
  - destruct forest as [|n rest]; [reflexivity|].
    unfold forest_size in Hsize. cbn [map] in Hsize.
    rewrite list_sum_step in Hsize. fold (forest_size rest) in Hsize.
    rewrite rows_of_cons in Hrows |- *.
    destruct n as [s | name attrs cs].
    + cbn [info_rows is_named children app size] in *.
      change (rows_of []) with (@nil node) in *. cbn [app] in *.
      apply IH; [lia | exact Hrows].
    + cbn [info_rows is_named existsb children] in *.
      rewrite orb_false_r in *.
      destruct (eqs name (lit "tr")) eqn:Hname.
      * cbn [app forallb] in Hrows.
        apply andb_true_iff in Hrows as [Hn Hrows].
        apply negb_true_iff in Hn.
        pose proof (not_below_rows _ Hn) as Hcs. cbn [children] in Hcs.
        rewrite Hcs in Hrows |- *.
        cbn [app fold_left] in *.
        unfold info_turn at 2.
        pose proof (info_row_size info (Tag name attrs cs)) as Hs.
        pose proof (@info_row_below [lit "tr"] info (Tag name attrs cs)) as Hb.
        destruct (info_row info (Tag name attrs cs)) as [info' row'].
        cbn [fst snd] in *.
        assert (Hrow' : rows_of (children row') = []).
        { apply not_below_rows.
          destruct (below [lit "tr"] row'); [|reflexivity].
          rewrite Hb in Hn; [discriminate | reflexivity]. }
        rewrite IH.
        -- now rewrite rows_of_app, Hrow'.
        -- rewrite forest_size_app. pose proof (children_size row'). lia.
        -- now rewrite rows_of_app, Hrow'.
      * cbn [app] in *. rewrite <- rows_of_app in *.
        apply IH; [|exact Hrows].
        rewrite forest_size_app. cbn [size] in Hsize.
        fold (forest_size cs) in Hsize. lia.
Qed.

(** The bound on the nodes visited is never reached: every bound from the
    number of nodes on gives the same dictionary. *)
Lemma info_rows_fuel (fuel fuel' : nat) (forest : list node) (info : Info.t) :
  forest_size forest <= fuel -> forest_size forest <= fuel' ->
  info_rows fuel forest info = info_rows fuel' forest info.
Proof.
  revert fuel' forest info.
  induction fuel as [|fuel IH]; intros fuel' forest info H H'.
  - destruct forest as [|n rest]; [now destruct fuel'|].
    unfold forest_size in H. cbn [map] in H. rewrite list_sum_step in H.
    pose proof (size_positive n). lia.
  - destruct forest as [|n rest]; [now destruct fuel'|].
    unfold forest_size in H, H'. cbn [map] in H, H'.
    rewrite list_sum_step in H, H'. fold (forest_size rest) in H, H'.
    destruct fuel' as [|fuel']; [pose proof (size_positive n); lia|].
    destruct n as [s | name attrs cs]; cbn [info_rows size] in *.
    + apply IH; lia.
    + fold (forest_size cs) in H, H'.
      destruct (eqs name (lit "tr")).
      * pose proof (info_row_size info (Tag name attrs cs)) as Hs.
        destruct (info_row info (Tag name attrs cs)) as [info' row'].
        cbn [snd size] in Hs. fold (forest_size cs) in Hs.
        pose proof (children_size row').
        apply IH; rewrite forest_size_app; lia.
      * apply IH; rewrite forest_size_app; lia.
Qed.

Lemma find_all_rows (n : node) : find_all [lit "tr"] n = rows_of (children n).
Proof. now destruct n. Qed.

Lemma rows_apart_below (infobox : node) :
  rows_apart infobox = true ->
  forallb (fun row => negb (below [lit "tr"] row))
          (rows_of (children infobox)) = true.
Proof.
  unfold rows_apart. rewrite find_all_rows.
  induction (rows_of (children infobox)) as [|row rows IH]; [reflexivity|].
  cbn [forallb]. intros H. apply andb_true_iff in H as [Hrow H].
  rewrite (IH H), andb_true_r.
  destruct (find [lit "tr"] row) eqn:E; [discriminate|].
  apply find_none_below in E. now rewrite E.
Qed.

Lemma info_turn_assign (info : Info.t) (row : node) :
  info_turn info row =
  match labelled_cell row with
  | Some (l, c) => assign l c info
  | None => info
  end.
Proof.
  unfold info_turn, info_row, call_on_cell, labelled_cell, header_label.
  destruct (find [lit "th"] row) as [header|]; [|reflexivity].
  destruct (find [lit "td"] row) as [data_cell|]; [|reflexivity].
  destruct (contains (lit "directed by") _); [reflexivity|].
  destruct (contains (lit "release date") _); [reflexivity|].
  destruct (existsb _ _); [reflexivity|].
  destruct (contains (lit "box office") _); reflexivity.
Qed.

Lemma last_cell_snoc (l : label) (rows : list node) (row : node) :
  last_cell l (rows ++ [row]) =
  match labelled_cell row with
  | Some (l', c) => if label_eqb l l' then Some c else last_cell l rows
  | None => last_cell l rows
  end.
Proof.
  unfold last_cell, first_cell. rewrite rev_app_distr.
  cbn [rev app List.find]. unfold has_label at 1.
  destruct (labelled_cell row) as [[l' c]|] eqn:E; [|reflexivity].
  destruct (label_eqb l l'); [|reflexivity].
  now apply labelled_cell_td in E.
Qed.

(** The value of a field behind the turns of the loop on the rows [rows]:
    the one assigned by the last row with the label of the field, the
    initial one without such row. *)
Lemma info_turns_last (rows : list node) (info : Info.t) :
  let final := fold_left info_turn rows info in
  Info.director final
  = match last_cell Directed rows with
    | Some c => Some (returns extract_director c)
    | None => Info.director info
    end
  /\ Info.release_year final
     = match last_cell Released rows with
       | Some c => returns extract_release_year c
       | None => Info.release_year info
       end
  /\ Info.country final
     = match last_cell Country rows with
       | Some c => Some (returns extract_country c)
       | None => Info.country info
       end
  /\ Info.box_office final
     = match last_cell BoxOffice rows with
       | Some c => Some (returns extract_box_office c)
       | None => Info.box_office info
       end.
Proof.
  induction rows as [|row rows IH] using rev_ind; [now cbn|].
  cbn zeta in *. rewrite fold_left_app. cbn [fold_left].
  rewrite info_turn_assign, !last_cell_snoc.
  destruct IH as (Hd & Hy & Hc & Hb).
  destruct (labelled_cell row) as [[[] c]|]; cbn; auto.
Qed.

(** C3, as stated, fails: of two rows "Directed by" the second one gives
    the director, not the first. *)
Lemma first_row_is_overwritten :
  let infobox :=
    Tag (lit "table") [(lit "class", lit "infobox vevent")]
      [infobox_row "Directed by" "Alice"; infobox_row "Directed by" "Bob"] in
  let rows := find_all [lit "tr"] infobox in
  List.find is_infobox (descendants two_directors_page) = Some infobox
  /\ rows = [infobox_row "Directed by" "Alice";
             infobox_row "Directed by" "Bob"]
  /\ option_map (returns extract_director) (first_cell Directed rows)
     = Some (lit "Alice")
  /\ get_film_info (fun _ => Ok two_directors_page) (lit "/wiki/Film")
     = Ok (Info.make (Some (lit "Bob")) None None None)
  /\ ~ (exists info,
           get_film_info (fun _ => Ok two_directors_page) (lit "/wiki/Film")
           = Ok info
           /\ Info.director info
              = option_map (returns extract_director)
                  (first_cell Directed rows)).
Proof.
  repeat split. intros (info & H & Hd).
  vm_compute in H. injection H as <-. vm_compute in Hd. discriminate.
Qed.

(** C3, amended.  On a detail page whose infobox rows do not lie inside
    one another, every row that matches a label assigns the field of the
    label, so that the value of a field is taken from the last matching
    row in document order; the rows with the same label before it are
    overwritten, and a field without matching row is null.  (A row inside
    the data cell of another row is read as that row has left the cell,
    see [row_in_sup_is_passed_over].) *)
Theorem get_film_info_last_row_wins
    (fetch : str -> result node) (film_url : str) (film_soup infobox : node) :
  fetch film_url = Ok film_soup ->
  List.find is_infobox (descendants film_soup) = Some infobox ->
  rows_apart infobox = true ->
  let rows := find_all [lit "tr"] infobox in
  exists info,
    get_film_info fetch film_url = Ok info
    /\ Info.director info
       = option_map (returns extract_director) (last_cell Directed rows)
    /\ Info.release_year info
       = match last_cell Released rows with
         | Some c => returns extract_release_year c
         | None => None
         end
    /\ Info.country info
       = option_map (returns extract_country) (last_cell Country rows)
    /\ Info.box_office info
       = option_map (returns extract_box_office) (last_cell BoxOffice rows).
Proof.
  intros Hfetch Hbox Hrows rows.
  exists (fold_left info_turn rows Info.empty). split.
  - unfold get_film_info. rewrite Hfetch. cbn [and_then]. rewrite Hbox.
    f_equal. subst rows. rewrite find_all_rows.
    apply info_rows_apart.
    + pose proof (children_size infobox). lia.
    + now apply rows_apart_below.
  - destruct (info_turns_last rows Info.empty) as (Hd & Hy & Hc & Hb).
    cbn zeta in *. rewrite Hd, Hy, Hc, Hb. cbn [Info.empty Info.director
      Info.release_year Info.country Info.box_office].
    repeat split;
      match goal with |- context [last_cell ?l rows] =>
        destruct (last_cell l rows) end; reflexivity.
Qed.

Lemma get_film_info_last_row_wins_witness :
  exists info,
    get_film_info (fun _ => Ok two_directors_page) (lit "/wiki/Film") = Ok info
    /\ Info.director info = Some (lit "Bob").
Proof.
  destruct (@get_film_info_last_row_wins
              (fun _ => Ok two_directors_page) (lit "/wiki/Film")
              two_directors_page
              (Tag (lit "table") [(lit "class", lit "infobox vevent")]
                 [infobox_row "Directed by" "Alice";
                  infobox_row "Directed by" "Bob"])
              eq_refl eq_refl eq_refl) as (info & H & Hd & _).
  exists info. split; [exact H | exact Hd].
Defined.

(** A row inside a [sup] element of the data cell of a row before it goes
    with that element: the loop does not read it. *)
Lemma row_in_sup_is_passed_over :
  get_film_info (fun _ => Ok footnote_row_page) (lit "/wiki/Film")
  = Ok (Info.make (Some (lit "Alice")) None None None).
Proof. reflexivity. Qed.

(** The reader of the detail page raises only what the request raises:
    without an infobox, and on rows without header cell or data cell, the
    fields stay null. *)
Lemma get_film_info_total (fetch : str -> result node) (film_url : str)
    (film_soup : node) :
  fetch film_url = Ok film_soup ->
  exists info, get_film_info fetch film_url = Ok info
               /\ (List.find is_infobox (descendants film_soup) = None ->
                   info = Info.empty).
Proof.
  intros H. unfold get_film_info. rewrite H. cbn [and_then].
  destruct (List.find is_infobox (descendants film_soup)); eauto.
  eexists. split; [reflexivity | discriminate].
Qed.

Lemma info_row_no_cell (info : Info.t) (row : node) :
  find [lit "th"] row = None \/ find [lit "td"] row = None ->
  info_row info row = (info, row).
Proof.
  unfold info_row. intros [H | H]; rewrite H; [reflexivity|].
  now destruct (find [lit "th"] row).
Qed.

(* ================================================================= *)
(** ** Listing page *)

Lemma extract_films_without_table (fetch : str -> result node) (soup : node) :
  fetch listing_url = Ok soup ->
  filter is_wikitable (descendants soup) = [] ->
  extract_films fetch = Raise AttributeError.
Proof.
  intros Hfetch Htables. unfold extract_films.
  rewrite Hfetch. cbn [and_then]. now rewrite Htables.
Qed.

(** C2.  The claim holds for the detail page ([get_film_info_total]) and
    fails for the listing page: without a table, [extract_films] asks
    [None] for its first row and raises; with a table whose header row
    names no title, it compares the number of cells with [None] and
    raises. *)
Theorem extract_films_raises :
  extract_films (fun _ => Ok empty_page) = Raise AttributeError
  /\ extract_films (fun _ => Ok untitled_listing_page) = Raise TypeError.
Proof. split; reflexivity. Qed.

(* ================================================================= *)
(** * Further properties *)

(* ================================================================= *)
(** ** Normalized text *)

Lemma lstrip_other (c : ascii) (t : str) :
  isspace c = false -> lstrip (c :: t) = c :: t.
Proof. intros H. cbn [lstrip]. now rewrite H. Qed.

Lemma collapse_word (w r : str) :
  Forall (fun c => isspace c = false) w ->
  collapse_whitespace (w ++ r) = w ++ collapse_whitespace r.
Proof.
  induction 1 as [|c w Hc _ IH]; [reflexivity|].
  cbn [app collapse_whitespace]. now rewrite Hc, IH.
Qed.

Lemma join_words_head (w : str) (ws : list str) :
  Forall word (w :: ws) ->
  exists c r, join (lit " ") (w :: ws) = c :: r /\ isspace c = false.
Proof.
  intros H. inversion H as [|? ? [Hne Hw] _]; subst.
  destruct w as [|c w]; [contradiction|].
  inversion Hw; subst. rewrite join_cons_head. eauto.
Qed.

Lemma collapse_join_words (ws : list str) :
  Forall word ws ->
  collapse_whitespace (join (lit " ") ws) = join (lit " ") ws.
Proof.
  induction 1 as [|w ws [Hne Hw] Hws IH]; [reflexivity|].
  destruct ws as [|w' ws].
  - cbn [join]. rewrite <- (app_nil_r w) at 1.
    rewrite collapse_word by exact Hw. cbn. apply app_nil_r.
  - change (join (lit " ") (w :: w' :: ws))
      with (w ++ " "%char :: join (lit " ") (w' :: ws)).
    rewrite collapse_word by exact Hw. f_equal.
    destruct (join_words_head Hws) as (c & r & E & Hc).
    rewrite E in *. cbn [collapse_whitespace] in *.
    rewrite space_isspace, Hc in *. now rewrite IH.
Qed.

Lemma join_words_last (ws : list str) :
  Forall word ws -> ws <> [] ->
  exists c r, rev (join (lit " ") ws) = c :: r /\ isspace c = false.
Proof.
  induction 1 as [|w ws [Hne Hw] Hws IH]; [contradiction|]. intros _.
  destruct ws as [|w' ws].
  - cbn [join].
    destruct (rev w) as [|c r] eqn:E.
    + apply (f_equal (@rev _)) in E. rewrite rev_involutive in E.
      now subst w.
    + exists c, r. split; [reflexivity|].
      apply (Forall_rev) in Hw. rewrite E in Hw. now inversion Hw.
  - change (join (lit " ") (w :: w' :: ws))
      with (w ++ " "%char :: join (lit " ") (w' :: ws)).
    rewrite rev_app_distr. cbn [rev]. rewrite <- app_assoc.
    destruct (IH ltac:(discriminate)) as (c & r & E & Hc).
    rewrite E. cbn [app]. eauto.
Qed.

Lemma strip_join_words (ws : list str) :
  Forall word ws -> strip (join (lit " ") ws) = join (lit " ") ws.
Proof.
  intros H. destruct ws as [|w ws]; [reflexivity|].
  unfold strip, rstrip.
  destruct (join_words_head H) as (c & r & E & Hc).
  rewrite E, (@lstrip_other c r Hc), <- E.
  destruct (join_words_last H ltac:(discriminate)) as (d & q & E' & Hd).
  rewrite E', (@lstrip_other d q Hd), <- E'. apply rev_involutive.
Qed.

(** The fixed points of [" ".join(text.split())] are the normalized
    texts. *)
Lemma normalized_squeeze (t : str) : normalized t <-> squeeze t = t.
Proof.
  split.
  - intros [Hs Hc]. now rewrite squeeze_collapse, Hc, Hs.
  - intros H. rewrite <- H. unfold squeeze. split.
    + apply strip_join_words, split_words.
    + apply collapse_join_words, split_words.
Qed.

Lemma squeeze_normalized (s : str) : normalized (squeeze s).
Proof. apply normalized_squeeze, join_split_idempotent. Qed.

Lemma squeeze_spaces (s : str) :
  forallb isspace s = true -> squeeze s = [].
Proof.
  induction s as [|c t IH]; [reflexivity|].
  cbn [forallb]. intros H. apply andb_true_iff in H as [Hc H].
  rewrite squeeze_cons, Hc. auto.
Qed.

Lemma squeeze_nil (s : str) : squeeze s = [] -> forallb isspace s = true.
Proof.
  induction s as [|c t IH]; [reflexivity|].
  destruct (isspace c) eqn:Hc.
  - rewrite squeeze_cons, Hc. cbn [forallb]. rewrite Hc. exact IH.
  - intros H. now apply squeeze_head_other in H.
Qed.

Lemma clean_text_is_normalized (text : str) : normalized (clean_text text).
Proof. apply (squeeze_normalized (sub_markers text)). Qed.

(** X1.  The text that [clean_text] returns is normalized: it has no
    whitespace at its ends, its whitespace collapsed is the text itself,
    and its only whitespace characters are spaces. *)
Theorem clean_text_normalized (text : str) :
  normalized (clean_text text)
  /\ Forall (fun c => isspace c = true -> c = " "%char) (clean_text text).
Proof.
  split; [apply clean_text_is_normalized|].
  eapply Forall_impl; [|apply clean_text_chars].
  intros c [H | H] Hc; congruence.
Qed.

(** X2.  [clean_text] never makes a text longer, and it returns the empty
    string exactly when nothing but whitespace is left behind the removal
    of the footnote markers. *)
Theorem clean_text_length_and_empty (text : str) :
  length (clean_text text) <= length text
  /\ (clean_text text = [] <-> forallb isspace (sub_markers text) = true).
Proof.
  split.
  - pose proof (squeeze_length (sub_markers text)) as H.
    pose proof (sub_markers_length text) as [H' _].
    unfold squeeze in H. fold (clean_text text) in H. lia.
  - split; [apply squeeze_nil | apply squeeze_spaces].
Qed.

(** X3.  The texts that [clean_text] leaves as they are are the
    normalized texts without footnote marker. *)
Theorem clean_text_fixed_points (text : str) :
  clean_text text = text <-> has_marker text = false /\ normalized text.
Proof.
  split.
  - intros H. assert (Hm : has_marker text = false).
    { destruct (has_marker text) eqn:E; [|reflexivity]. exfalso.
      apply sub_markers_length in E.
      pose proof (squeeze_length (sub_markers text)) as L.
      unfold squeeze in L. fold (clean_text text) in L.
      rewrite H in L. lia. }
    split; [exact Hm|]. apply normalized_squeeze.
    unfold clean_text in H. now rewrite sub_markers_none in H by exact Hm.
  - intros [Hm Hn]. unfold clean_text. rewrite sub_markers_none by exact Hm.
    now apply normalized_squeeze.
Qed.

(* ================================================================= *)
(** ** Stripping before normalizing *)

Lemma space_not_bracket (c : ascii) : isspace c = true -> eqc c "["%char = false.
Proof. all_chars c. Qed.

Lemma space_no_amount (c : ascii) :
  isspace c = true -> isdecimal c = false /\ eqc c "]"%char = false.
Proof. all_chars c; split; reflexivity. Qed.

Lemma lstrip_spaces (s : str) :
  exists ws, forallb isspace ws = true /\ s = ws ++ lstrip s.
Proof.
  induction s as [|c t (ws & Hws & E)]; [now exists []|].
  cbn [lstrip]. destruct (isspace c) eqn:Hc.
  - exists (c :: ws). cbn [forallb app]. rewrite Hc, Hws. now rewrite <- E.
  - now exists [].
Qed.

Lemma rstrip_spaces (s : str) :
  exists ws, forallb isspace ws = true /\ s = rstrip s ++ ws.
Proof.
  unfold rstrip. destruct (lstrip_spaces (rev s)) as (ws & Hws & E).
  exists (rev ws). split.
  - rewrite forallb_forall in *. intros c Hc. apply Hws.
    now apply in_rev.
  - rewrite <- rev_app_distr, <- E. symmetry. apply rev_involutive.
Qed.

Lemma sub_markers_leading (ws s : str) :
  forallb isspace ws = true ->
  sub_markers (ws ++ s) = ws ++ sub_markers s.
Proof.
  induction ws as [|c ws IH]; [reflexivity|].
  cbn [forallb app]. intros H. apply andb_true_iff in H as [Hc H].
  rewrite sub_markers_keep, IH by
    (exact H || (cbn [match_marker]; now rewrite space_not_bracket)).
  reflexivity.
Qed.

(** In front of whitespace the pattern matches as it does without it. *)
Lemma match_marker_trailing (a ws : str) :
  forallb isspace ws = true ->
  match_marker (a ++ ws) = match_marker a \/ a = [].
Proof.
  intros Hws. destruct a as [|c a]; [now right|]. left.
  cbn [app match_marker]. destruct (eqc c "["); [|reflexivity].
  pose proof (span_spec isdecimal a) as Hs.
  destruct (span isdecimal a) as [x y] eqn:E.
  destruct Hs as (Ha & Hx & Hy).
  destruct y as [|e y].
  - rewrite app_nil_r in Ha. subst a.
    destruct ws as [|d ws]; [now rewrite app_nil_r, E|].
    cbn [forallb] in Hws. apply andb_true_iff in Hws as [Hd _].
    destruct (space_no_amount d Hd) as [Hd1 Hd2].
    rewrite span_decimal_all by (exact Hx || exact Hd1).
    rewrite Hd2. now destruct x.
  - rewrite Ha, <- app_assoc.
    rewrite span_decimal_all by (exact Hx || exact Hy).
    reflexivity.
Qed.

Lemma sub_markers_spaces (ws : str) :
  forallb isspace ws = true -> sub_markers ws = ws.
Proof.
  intros H. rewrite <- (app_nil_r ws) at 1.
  rewrite sub_markers_leading by exact H. cbn. apply app_nil_r.
Qed.

Lemma sub_markers_trailing (a ws : str) :
  forallb isspace ws = true ->
  sub_markers (a ++ ws) = sub_markers a ++ ws.
Proof.
  intros Hws. remember (length a) as n eqn:Hn. revert a Hn.
  induction n as [n IH] using lt_wf_ind. intros a Hn.
  destruct (@match_marker_trailing a ws Hws) as [H | ->];
    [|now apply sub_markers_spaces].
  destruct a as [|c a]; [now apply sub_markers_spaces|].
  destruct (match_marker (c :: a)) as [k|] eqn:E.
  - pose proof (@match_marker_length _ _ E) as Hk.
    unfold sub_markers at 1 2. cbn [app sub_markers_from].
    cbn [app] in H. rewrite H, E.
    rewrite !sub_markers_from_skipn.
    cbn [length] in Hk.
    rewrite skipn_app.
    replace (k - 1 - length a) with 0 by lia. cbn [skipn].
    apply (IH (length (skipn (k - 1) a))); [|reflexivity].
    subst n. rewrite length_skipn. cbn [length]. lia.
  - cbn [app] in *. rewrite sub_markers_keep by congruence.
    rewrite (@sub_markers_keep c a) by exact E. cbn [app]. f_equal.
    apply (IH (length a)); [subst n; simpl; lia | reflexivity].
Qed.

Lemma squeeze_leading (ws s : str) :
  forallb isspace ws = true -> squeeze (ws ++ s) = squeeze s.
Proof.
  induction ws as [|c ws IH]; [reflexivity|].
  cbn [forallb app]. intros H. apply andb_true_iff in H as [Hc H].
  rewrite squeeze_cons, Hc. auto.
Qed.

Lemma squeeze_trailing (s ws : str) :
  forallb isspace ws = true -> squeeze (s ++ ws) = squeeze s.
Proof.
  intros Hws. induction s as [|c s IH].
  - cbn [app]. now rewrite squeeze_spaces.
  - cbn [app]. rewrite !squeeze_cons.
    destruct (isspace c); [exact IH|].
    destruct s as [|d s].
    + cbn [app]. destruct ws as [|e ws]; [reflexivity|].
      cbn [forallb] in Hws. apply andb_true_iff in Hws as [He Hws'].
      rewrite He, squeeze_spaces; [reflexivity|].
      cbn [forallb]. now rewrite He.
    + cbn [app] in *. now rewrite IH.
Qed.

Lemma clean_text_of_strip (s : str) : clean_text (strip s) = clean_text s.
Proof.
  destruct (lstrip_spaces s) as (ws & Hws & E).
  destruct (rstrip_spaces (lstrip s)) as (ws' & Hws' & E').
  unfold strip. rewrite E at 2. rewrite E' at 2.
  unfold clean_text.
  rewrite sub_markers_leading by exact Hws.
  rewrite sub_markers_trailing by exact Hws'.
  fold (squeeze (ws ++ sub_markers (rstrip (lstrip s)) ++ ws')).
  rewrite squeeze_leading by exact Hws.
  now rewrite squeeze_trailing by exact Hws'.
Qed.

(** X4.  Stripping a text before it is normalized changes nothing:
    [clean_text(s.strip())] is [clean_text(s)]. *)
Theorem clean_text_strip (s : str) : clean_text (strip s) = clean_text s.
Proof. apply clean_text_of_strip. Qed.

(* ================================================================= *)
(** ** Glued names *)

Lemma has_glue_after_weaken (p : option ascii) (t : str) :
  has_glue_after None t = true -> has_glue_after p t = true.
Proof.
  destruct t as [|c r]; [easy|]. cbn [has_glue_after orb].
  intros ->. apply orb_true_r.
Qed.

(** [has_glue_after] finds the places of [glued_at]. *)
Lemma has_glue_places (t : str) :
  has_glue_after None t = true <-> exists i, glued_at t i = true.
Proof.
  split.
  - induction t as [|c r IH]; [easy|].
    cbn [has_glue_after orb]. destruct r as [|d r]; [easy|].
    cbn [has_glue_after]. intros H. apply orb_true_iff in H as [H | H].
    + exists 1. exact H.
    + destruct IH as [i Hi].
      { cbn [has_glue_after orb]. exact H. }
      destruct i as [|i]; [discriminate|]. exists (S (S i)). exact Hi.
  - intros [i Hi]. revert i Hi. induction t as [|c r IH]; intros i Hi.
    + destruct i as [|[|i]]; discriminate.
    + destruct i as [|[|i]]; [discriminate| |].
      * cbn [glued_at nth_error] in Hi.
        destruct r as [|d r]; [discriminate|].
        cbn [has_glue_after orb nth_error] in *. now rewrite Hi.
      * cbn [has_glue_after orb]. apply has_glue_after_weaken.
        apply (IH (S i)). exact Hi.
Qed.

Lemma fix_glued_from_no_glue (p : option ascii) (t : str) :
  has_glue_after p (fix_glued_from p t) = false.
Proof.
  revert p. induction t as [|c t IH]; intros p; [reflexivity|].
  cbn [fix_glued_from].
  destruct (match p with Some q => is_az q && is_AZ c | None => false end)
    eqn:E.
  - cbn [has_glue_after]. rewrite IH.
    replace (match p with Some q => is_az q && is_AZ " " | None => false end)
      with false by (destruct p; [now rewrite andb_false_r | reflexivity]).
    reflexivity.
  - cbn [has_glue_after]. now rewrite E, IH.
Qed.

Lemma fix_glued_from_same (p : option ascii) (t : str) :
  has_glue_after p t = false -> fix_glued_from p t = t.
Proof.
  revert p. induction t as [|c t IH]; intros p; [reflexivity|].
  cbn [has_glue_after fix_glued_from]. intros H.
  apply orb_false_iff in H as [-> H]. now rewrite IH.
Qed.

Lemma fix_glued_from_spaces (p : option ascii) (t : str) :
  without_spaces (fix_glued_from p t) = without_spaces t
  /\ length t <= length (fix_glued_from p t) <= 2 * length t.
Proof.
  revert p. induction t as [|c t IH]; intros p;
    [cbn; split; [reflexivity | lia]|].
  cbn [fix_glued_from]. destruct (IH (Some c)) as [H1 H2].
  unfold without_spaces in *.
  destruct (match p with Some q => is_az q && is_AZ c | None => false end).
  - cbn [filter length]. rewrite eqc_refl. cbn [negb].
    rewrite H1. split; [reflexivity | lia].
  - cbn [filter length]. rewrite H1. split; [reflexivity | lia].
Qed.

(** X5.  Behind the repair of glued names no lowercase letter is followed
    at once by an uppercase letter; the texts the repair leaves as they
    are are those without such a place. *)
Theorem fix_glued_names_no_glue (text : str) :
  (forall i, glued_at (fix_glued_names text) i = false)
  /\ (fix_glued_names text = text <-> forall i, glued_at text i = false).
Proof.
  assert (H : forall t, has_glue_after None t = false <->
                        forall i, glued_at t i = false).
  { intros t. split.
    - intros Hf i. destruct (glued_at t i) eqn:E; [|reflexivity].
      assert (has_glue_after None t = true)
        by (apply has_glue_places; now exists i).
      congruence.
    - intros Hf. destruct (has_glue_after None t) eqn:E; [|reflexivity].
      apply has_glue_places in E as [i Hi]. now rewrite Hf in Hi. }
  split.
  - apply H, fix_glued_from_no_glue.
  - split.
    + intros E. apply H. rewrite <- E. apply fix_glued_from_no_glue.
    + intros Hf. apply fix_glued_from_same. now apply H.
Qed.

(** X6.  The repair of glued names only puts spaces in: without their
    spaces the result and the text are the same, and the result has at
    least the length of the text and at most twice that length. *)
Theorem fix_glued_names_only_spaces (text : str) :
  without_spaces (fix_glued_names text) = without_spaces text
  /\ length text <= length (fix_glued_names text) <= 2 * length text.
Proof. apply fix_glued_from_spaces. Qed.

(* ================================================================= *)
(** ** Normalized text, as a test *)

Lemma upper_not_space (c : ascii) : is_AZ c = true -> isspace c = false.
Proof. all_chars c. Qed.

Lemma space_not_lower (c : ascii) : isspace c = true -> is_az c = false.
Proof. all_chars c. Qed.

Lemma tidy_word (w r : str) :
  Forall (fun c => isspace c = false) w -> tidy (w ++ r) = tidy r.
Proof.
  induction 1 as [|c w Hc _ IH]; [reflexivity|].
  cbn [app tidy]. now rewrite Hc.
Qed.

Lemma tidy_join_words (ws : list str) :
  Forall word ws -> tidy (join (lit " ") ws) = true.
Proof.
  induction 1 as [|w ws [Hne Hw] Hws IH]; [reflexivity|].
  destruct ws as [|w' ws].
  - cbn [join]. rewrite <- (app_nil_r w). now rewrite tidy_word.
  - change (join (lit " ") (w :: w' :: ws))
      with (w ++ " "%char :: join (lit " ") (w' :: ws)).
    rewrite tidy_word by exact Hw.
    destruct (join_words_head Hws) as (c & r & E & Hc).
    rewrite E in *. cbn [tidy] in *. rewrite space_isspace, eqc_refl.
    cbn [andb]. rewrite Hc in *. cbn [negb andb]. exact IH.
Qed.

Lemma squeeze_is_normalized (s : str) : is_normalized (squeeze s) = true.
Proof.
  unfold is_normalized, squeeze. rewrite tidy_join_words by apply split_words.
  destruct (split s) as [|w ws] eqn:E; [reflexivity|].
  destruct (@join_words_head w ws) as (c & r & E' & Hc).
  { rewrite <- E. apply split_words. }
  rewrite E'. cbn. now rewrite Hc.
Qed.

Lemma tidy_squeeze (t : str) :
  tidy t = true ->
  squeeze t = if starts_with_space t then tl t else t.
Proof.
  induction t as [|c t IH]; [reflexivity|].
  cbn [tidy starts_with_space tl]. rewrite squeeze_cons.
  destruct (isspace c) eqn:Hc.
  - intros H. apply andb_true_iff in H as [_ H].
    destruct t as [|d t]; [discriminate|].
    apply andb_true_iff in H as [Hd H]. apply negb_true_iff in Hd.
    rewrite (IH H). cbn [starts_with_space]. now rewrite Hd.
  - intros H. specialize (IH H).
    destruct t as [|d t]; [reflexivity|].
    cbn [starts_with_space] in IH. rewrite IH.
    destruct (isspace d) eqn:Hd; [|reflexivity].
    cbn [tidy] in H. rewrite Hd in H.
    apply andb_true_iff in H as [Heq H]. apply eqc_true in Heq. subst d.
    destruct t as [|e t]; [discriminate|]. reflexivity.
Qed.

(** The test [is_normalized] decides [normalized]. *)
Lemma is_normalized_true (t : str) : is_normalized t = true <-> normalized t.
Proof.
  rewrite normalized_squeeze. split.
  - unfold is_normalized. intros H. apply andb_true_iff in H as [Hh Ht].
    rewrite (tidy_squeeze _ Ht). apply negb_true_iff in Hh. now rewrite Hh.
  - intros H. rewrite <- H. apply squeeze_is_normalized.
Qed.

Lemma fix_glued_from_head (p : option ascii) (c : ascii) (t : str) :
  isspace c = true ->
  fix_glued_from p (c :: t) = c :: fix_glued_from (Some c) t.
Proof.
  intros Hc. cbn [fix_glued_from].
  replace (match p with Some q => is_az q && is_AZ c | None => false end)
    with false; [reflexivity|].
  destruct p; [|reflexivity].
  destruct (is_AZ c) eqn:E; [|now rewrite andb_false_r].
  apply upper_not_space in E. congruence.
Qed.

Lemma fix_glued_from_tidy (p : option ascii) (t : str) :
  tidy t = true -> tidy (fix_glued_from p t) = true.
Proof.
  revert p. induction t as [|c t IH]; intros p; [easy|]. intros H.
  assert (Hc : tidy (c :: fix_glued_from (Some c) t) = true).
  { cbn [tidy] in *. destruct (isspace c) eqn:Hc.
    - apply andb_true_iff in H as [Heq H]. rewrite Heq. cbn [andb].
      destruct t as [|d t]; [discriminate|].
      apply andb_true_iff in H as [Hd H].
      specialize (IH (Some c) H). cbn [fix_glued_from] in *.
      rewrite (space_not_lower c Hc) in *. cbn [andb] in *.
      now rewrite Hd.
    - now apply IH. }
  cbn [fix_glued_from].
  destruct (match p with Some q => is_az q && is_AZ c | None => false end)
    eqn:E; [|exact Hc].
  cbn [tidy]. rewrite space_isspace, eqc_refl. cbn [andb].
  destruct p as [q|]; [|discriminate].
  apply andb_true_iff in E as [_ E]. apply upper_not_space in E.
  rewrite E. cbn [negb andb]. cbn [tidy] in Hc. now rewrite E in Hc.
Qed.

Lemma fix_glued_from_normalized (text : str) :
  normalized text -> normalized (fix_glued_names text).
Proof.
  rewrite <- !is_normalized_true. unfold is_normalized, fix_glued_names.
  intros H. apply andb_true_iff in H as [Hh Ht].
  apply andb_true_iff. split; [|now apply fix_glued_from_tidy].
  destruct text as [|c t]; [reflexivity|]. exact Hh.
Qed.

(** X7.  The repair of glued names keeps a normalized text normalized. *)
Theorem fix_glued_names_normalized (text : str) :
  normalized text -> normalized (fix_glued_names text).
Proof. apply fix_glued_from_normalized. Qed.

Lemma fix_glued_names_normalized_witness :
  normalized (fix_glued_names (lit "JohnSmith")).
Proof.
  apply fix_glued_names_normalized. now split.
Defined.

(* ================================================================= *)
(** ** What the extractors return *)

Lemma first_value_clean (cs : list node) (v : str) :
  first_value cs = Some v -> exists x, v = clean_text x.
Proof.
  rewrite first_value_find.
  destruct (List.find _ cs) as [child|]; [|discriminate].
  intros [= <-]. eauto.
Qed.

Lemma first_value_from_cell_clean (td : node) :
  exists x, returns extract_first_value_from_cell td = clean_text x.
Proof.
  unfold returns. rewrite extract_first_value_from_cell_run. cbn [fst].
  destruct (first_value _) as [v|] eqn:E; [|eauto].
  now apply first_value_clean in E.
Qed.

(** X8.  The strings that the cell value selector, the director
    extractor and the country extractor return are normalized. *)
Theorem extracted_names_normalized (td : node) :
  normalized (returns extract_first_value_from_cell td)
  /\ normalized (returns extract_director td)
  /\ normalized (returns extract_country td).
Proof.
  assert (Hd : normalized (returns extract_director td)).
  { unfold returns. rewrite extract_director_run. cbn [fst].
    destruct (find [lit "a"] (without_sups td));
      apply fix_glued_from_normalized.
    - apply clean_text_is_normalized.
    - destruct (first_value_from_cell_clean (without_sups td)) as [x ->].
      apply clean_text_is_normalized. }
  split; [|split; [exact Hd | exact Hd]].
  destruct (first_value_from_cell_clean td) as [x ->].
  apply clean_text_is_normalized.
Qed.

(** X9.  A year that the release-year extractor returns lies between
    1800 and 2099. *)
Theorem extract_release_year_range (td : node) (y : Z) :
  returns extract_release_year td = Some y -> (1800 <= y <= 2099)%Z.
Proof.
  unfold returns. rewrite extract_release_year_run. cbn [fst].
  destruct (re_split_first
              (clean_text (get_text (lit " ") true (without_sups td))))
    as [ps ->].
  pose proof (search_year_leftmost
                (first_segment
                   (clean_text
                      (get_text (lit " ") true (without_sups td))))) as H.
  destruct (search_year _) as [m|]; [|discriminate].
  intros [= <-]. destruct H as (i & (a & b & c & d & _ & _ & E & R & _) & _).
  exact R.
Qed.

Lemma extract_release_year_range_witness :
  returns extract_release_year jaws_release_cell = Some 1975%Z
  /\ (1800 <= 1975 <= 2099)%Z.
Proof.
  split; [reflexivity|].
  apply (@extract_release_year_range jaws_release_cell 1975%Z).
  reflexivity.
Defined.

(* ================================================================= *)
(** ** Cells without [sup] elements, and cells without text *)

Lemma without_sups_same (n : node) : has_sup n = false -> without_sups n = n.
Proof.
  induction n as [s | name attrs cs IH] using node_induction;
    [reflexivity|].
  rewrite has_sup_children. cbn [without_sups]. intros H. f_equal.
  induction IH as [|c cs Hc _ IHcs]; [reflexivity|].
  cbn [existsb] in H. apply orb_false_iff in H as [H Hcs].
  apply orb_false_iff in H as [Hn Hs].
  cbn [flat_map]. rewrite Hn. cbn [app]. now rewrite Hc, IHcs.
Qed.

(** X10.  [remove_sup_tags] is idempotent, and it leaves a tag without
    [sup] elements below it as it is. *)
Theorem remove_sup_tags_idempotent (tag : node) :
  leaves remove_sup_tags (leaves remove_sup_tags tag)
  = leaves remove_sup_tags tag
  /\ (has_sup tag = false -> leaves remove_sup_tags tag = tag).
Proof.
  unfold leaves, remove_sup_tags. cbn [snd]. split.
  - apply without_sups_idempotent.
  - apply without_sups_same.
Qed.

Lemma remove_sup_tags_idempotent_witness :
  leaves remove_sup_tags jaws_release_cell = jaws_release_cell.
Proof.
  apply (proj2 (remove_sup_tags_idempotent jaws_release_cell)). reflexivity.
Defined.

Lemma returns_director_again (td : node) :
  returns extract_director (without_sups td) = returns extract_director td.
Proof.
  unfold returns. rewrite !extract_director_run.
  now rewrite !without_sups_idempotent.
Qed.

Lemma returns_first_value_again (td : node) :
  returns extract_first_value_from_cell (without_sups td)
  = returns extract_first_value_from_cell td.
Proof.
  unfold returns. rewrite !extract_first_value_from_cell_run.
  now rewrite !without_sups_idempotent.
Qed.

Lemma returns_release_year_again (td : node) :
  returns extract_release_year (without_sups td)
  = returns extract_release_year td.
Proof.
  unfold returns. rewrite !extract_release_year_run.
  now rewrite !without_sups_idempotent.
Qed.

Lemma returns_box_office_again (td : node) :
  returns extract_box_office (without_sups td)
  = returns extract_box_office td.
Proof.
  unfold returns, extract_box_office, bind, remove_sup_tags.
  now rewrite !without_sups_idempotent.
Qed.

(** X11.  What an extractor returns does not depend on the extractors
    that have worked on the cell before: on the cell that any of the five
    operations leaves, each of them returns what it returns on the cell
    itself. *)
Theorem extractors_after_extractors (td : node) :
  Forall (fun td' =>
            returns extract_director td' = returns extract_director td
            /\ returns extract_country td' = returns extract_country td
            /\ returns extract_release_year td'
               = returns extract_release_year td
            /\ returns extract_box_office td'
               = returns extract_box_office td
            /\ returns extract_first_value_from_cell td'
               = returns extract_first_value_from_cell td)
         [leaves extract_director td;
          leaves extract_country td;
          leaves extract_release_year td;
          leaves extract_box_office td;
          leaves extract_first_value_from_cell td].
Proof.
  assert (H : forall td', td' = without_sups td ->
      returns extract_director td' = returns extract_director td
      /\ returns extract_country td' = returns extract_country td
      /\ returns extract_release_year td' = returns extract_release_year td
      /\ returns extract_box_office td' = returns extract_box_office td
      /\ returns extract_first_value_from_cell td'
         = returns extract_first_value_from_cell td).
  { intros td' ->. repeat split.
    - apply returns_director_again.
    - apply returns_director_again.
    - apply returns_release_year_again.
    - apply returns_box_office_again.
    - apply returns_first_value_again. }
  repeat apply Forall_cons; try apply Forall_nil; apply H.
  - apply leaves_director.
  - apply leaves_director.
  - apply leaves_release_year.
  - apply extract_box_office_leaves.
  - unfold leaves. now rewrite extract_first_value_from_cell_run.
Qed.

Lemma strings_children (name : str) attrs (cs : list node) :
  strings (Tag name attrs cs) =
  flat_map (fun c => match c with
                     | Text s => [s]
                     | Tag _ _ _ => strings c
                     end) cs.
Proof.
  unfold strings. cbn [descendants].
  induction cs as [|c cs IH]; [reflexivity|].
  cbn [flat_map]. rewrite flat_map_app, IH. cbn [flat_map].
  now destruct c.
Qed.

Lemma stripped_strings_children (name : str) attrs (cs : list node) :
  stripped_strings (Tag name attrs cs) = [] ->
  Forall (fun c => truthy (child_text c) = false
                   /\ stripped_strings c = []) cs.
Proof.
  unfold stripped_strings. rewrite strings_children.
  induction cs as [|c cs IH]; [constructor|].
  cbn [flat_map]. rewrite map_app, filter_app. intros H.
  apply app_eq_nil in H as [Hc Hcs]. constructor; [|now apply IH].
  destruct c as [s | n a l].
  - cbn [map filter] in Hc. cbn [child_text].
    destruct (truthy (strip s)); [discriminate | now split].
  - cbn [child_text]. unfold get_text, stripped_strings.
    rewrite Hc. now split.
Qed.

(** Below a tag without text there is no text. *)
Lemma stripped_strings_below (n a : node) :
  stripped_strings n = [] -> In a (descendants n) -> stripped_strings a = [].
Proof.
  induction n as [s | name attrs cs IH] using node_induction; [easy|].
  intros H Ha. apply stripped_strings_children in H.
  cbn [descendants] in Ha. apply in_flat_map in Ha as (c & Hc & Ha).
  rewrite Forall_forall in IH, H.
  destruct Ha as [<- | Ha]; [now apply H|].
  apply (IH c Hc); [now apply H | exact Ha].
Qed.

Lemma first_value_no_text (cs : list node) :
  Forall (fun c => truthy (child_text c) = false) cs -> first_value cs = None.
Proof.
  intros H. rewrite first_value_find.
  induction H as [|c cs Hc _ IH]; [reflexivity|].
  cbn [List.find]. now rewrite Hc, andb_false_r.
Qed.

Lemma first_value_from_cell_no_text (td : node) :
  stripped_strings (without_sups td) = [] ->
  returns extract_first_value_from_cell td = [].
Proof.
  intros H. unfold returns. rewrite extract_first_value_from_cell_run.
  cbn [fst]. unfold get_text. rewrite H.
  rewrite first_value_no_text; [reflexivity|].
  destruct (without_sups td) as [s | name attrs cs]; [constructor|].
  apply stripped_strings_children in H. cbn [children].
  eapply Forall_impl; [|exact H]. now intros c [Hc _].
Qed.

(** X12.  On a cell without text (no text node of the cell without its
    [sup] elements holds a character that is no whitespace), the cell
    value selector, the director extractor, the country extractor and the
    box-office extractor return the empty string, and the release-year
    extractor returns nothing. *)
Theorem extractors_on_empty_cell (td : node) :
  stripped_strings (without_sups td) = [] ->
  returns extract_first_value_from_cell td = []
  /\ returns extract_director td = []
  /\ returns extract_country td = []
  /\ returns extract_release_year td = None
  /\ returns extract_box_office td = [].
Proof.
  intros H.
  assert (Hd : returns extract_director td = []).
  { unfold returns. rewrite extract_director_run. cbn [fst].
    destruct (find [lit "a"] (without_sups td)) as [a_tag|] eqn:E.
    - apply find_some in E as [E _].
      unfold get_text.
      now rewrite (@stripped_strings_below (without_sups td) a_tag H E).
    - rewrite first_value_from_cell_no_text; [reflexivity|].
      now rewrite without_sups_idempotent. }
  split; [now apply first_value_from_cell_no_text|].
  split; [exact Hd|]. split; [exact Hd|]. split.
  - unfold returns. rewrite extract_release_year_run. cbn [fst].
    unfold get_text. now rewrite H.
  - unfold returns, extract_box_office, bind, remove_sup_tags.
    now rewrite H.
Qed.

Lemma extractors_on_empty_cell_witness :
  returns extract_director (element "td" [Text (lit "  ")]) = [].
Proof.
  apply (extractors_on_empty_cell (element "td" [Text (lit "  ")])).
  reflexivity.
Defined.

(* ================================================================= *)
(** ** A footnote marker in front *)

Lemma decimal_not_space (c : ascii) : isdecimal c = true -> isspace c = false.
Proof. all_chars c. Qed.

Lemma bracketed_integer_word (m : str) : bracketed_integer m -> word m.
Proof.
  intros (ds & _ & Hds & ->). split; [discriminate|].
  constructor; [reflexivity|]. apply Forall_app. split.
  - rewrite forallb_forall in Hds. apply Forall_forall.
    intros c Hc. now apply decimal_not_space, Hds.
  - now constructor.
Qed.

Lemma strip_word (w : str) : word w -> strip w = w.
Proof.
  intros H. apply (@strip_join_words [w]). now constructor.
Qed.

Lemma clean_text_marker (m : str) : bracketed_integer m -> clean_text m = [].
Proof.
  intros H. unfold clean_text. rewrite <- (app_nil_r m).
  now rewrite (sub_markers_head [] H).
Qed.

(** X13.  When the first child of a cell is a text node that holds
    nothing but one footnote marker, the cell value selector returns the
    empty string, whatever follows in the cell: the node counts as text
    before it is normalized, and is empty behind the normalization. *)
Theorem marker_text_hides_cell (name : str) (attrs : list (str * str))
    (m : str) (rest : list node) :
  bracketed_integer m ->
  returns extract_first_value_from_cell (Tag name attrs (Text m :: rest)) = [].
Proof.
  intros H. unfold returns. rewrite extract_first_value_from_cell_run.
  cbn [fst without_sups flat_map is_named app children first_value existsb].
  rewrite (strip_word (bracketed_integer_word H)).
  destruct m as [|c m]; [now destruct H as (? & _ & _ & [=])|].
  cbn [truthy]. apply (clean_text_marker H).
Qed.

Lemma marker_text_hides_cell_witness :
  returns extract_first_value_from_cell
    (element "td" [Text (lit "[1]"); Text (lit "United States")]) = [].
Proof.
  apply marker_text_hides_cell. exists (lit "1"). repeat split. discriminate.
Defined.

(* ================================================================= *)
(** ** The box-office value *)

Lemma amount_char_not_space (c : ascii) :
  is_amount_char c = true -> isspace c = false.
Proof. all_chars c. Qed.

Lemma span_all (p : ascii -> bool) (s a b : str) :
  span p s = (a, b) -> s = a ++ b /\ forallb p a = true.
Proof.
  intros E. pose proof (span_spec p s) as H. rewrite E in H. tauto.
Qed.

(** A match of the amount pattern: a dollar sign and one or more digits,
    commas and periods, somewhere in the text. *)
Lemma search_amount_found (s amount behind : str) :
  search_amount s = Some (amount, behind) ->
  exists before ds,
    s = before ++ amount ++ behind
    /\ amount = "$"%char :: ds /\ ds <> []
    /\ forallb is_amount_char ds = true.
Proof.
  induction s as [|c t IH]; [discriminate|]. cbn [search_amount].
  assert (Hnext : search_amount t = Some (amount, behind) ->
                  exists before ds,
                    c :: t = before ++ amount ++ behind
                    /\ amount = "$"%char :: ds /\ ds <> []
                    /\ forallb is_amount_char ds = true).
  { intros H. destruct (IH H) as (before & ds & -> & Ha & Hne & Hds).
    exists (c :: before), ds. auto. }
  destruct (eqc c "$") eqn:Hc; [|exact Hnext].
  apply eqc_true in Hc. subst c.
  destruct (span is_amount_char t) as [ds rest] eqn:E.
  destruct ds as [|d ds]; [exact Hnext|].
  intros [= <- <-]. apply span_all in E as [-> Hds].
  exists [], (d :: ds). repeat split; [discriminate | exact Hds].
Qed.

Lemma rstrip_space (a : str) : rstrip (a ++ [" "%char]) = rstrip a.
Proof.
  unfold rstrip. rewrite rev_app_distr. cbn [rev app lstrip].
  now rewrite space_isspace.
Qed.

Lemma strip_word_space (w : str) : word w -> strip (w ++ [" "%char]) = w.
Proof.
  intros H. pose proof (strip_word H) as S. unfold strip in *.
  destruct H as [Hne Hw]. destruct w as [|c w]; [contradiction|].
  inversion Hw as [|? ? Hc _]; subst.
  cbn [app] in *. rewrite lstrip_other in * by exact Hc.
  change (c :: w ++ [" "%char]) with ((c :: w) ++ [" "%char]).
  now rewrite rstrip_space.
Qed.

(** X14.  When the box-office extractor finds an amount, it returns the
    amount alone or followed by [" billion"] or [" million"]: the amount
    is a dollar sign with one or more digits, commas and periods, taken
    from the text of the cell, and the unit is read from the text behind
    the amount, [billion] before [million]. *)
Theorem extract_box_office_amount (td : node) (amount behind : str) :
  search_amount (box_office_text td) = Some (amount, behind) ->
  returns extract_box_office td = amount ++ unit_suffix behind
  /\ exists before ds,
       box_office_text td = before ++ amount ++ behind
       /\ amount = "$"%char :: ds /\ ds <> []
       /\ forallb is_amount_char ds = true.
Proof.
  intros H. split; [|now apply search_amount_found].
  unfold returns, extract_box_office, bind, remove_sup_tags.
  fold (box_office_text td). rewrite H. cbn [fst ret].
  apply search_amount_found in H as (_ & ds & _ & -> & Hne & Hds).
  assert (Hw : word ("$"%char :: ds)).
  { split; [discriminate|]. constructor; [reflexivity|].
    rewrite forallb_forall in Hds. apply Forall_forall.
    intros c Hc. now apply amount_char_not_space, Hds. }
  unfold unit_suffix.
  destruct (contains (lit "billion") (lower behind)).
  - apply (@strip_join_words ["$"%char :: ds; lit "billion"]).
    constructor; [exact Hw|]. constructor; [|constructor].
    split; [discriminate | repeat constructor].
  - destruct (contains (lit "million") (lower behind)).
    + apply (@strip_join_words ["$"%char :: ds; lit "million"]).
      constructor; [exact Hw|]. constructor; [|constructor].
    split; [discriminate | repeat constructor].
    + rewrite !app_nil_r. apply (strip_word_space Hw).
Qed.

Lemma extract_box_office_amount_witness :
  returns extract_box_office split_amount_cell
  = lit "$2" ++ unit_suffix (lit " .264 billion").
Proof.
  apply (@extract_box_office_amount split_amount_cell (lit "$2")
           (lit " .264 billion")).
  reflexivity.
Defined.

(* ================================================================= *)
(** ** Detail page, further *)

Lemma info_row_unlabelled (info : Info.t) (row : node) :
  labelled_cell row = None -> info_row info row = (info, row).
Proof.
  intros H. pose proof (info_turn_assign info row) as Hi.
  destruct (info_row_row info row) as (f & _ & Hr).
  rewrite H in Hi, Hr. unfold info_turn in Hi.
  destruct (info_row info row) as [i r]. cbn [fst snd] in *. congruence.
Qed.

Lemma info_rows_unlabelled (fuel : nat) (forest : list node) (info : Info.t) :
  (forall row, In row (rows_of forest) -> labelled_cell row = None) ->
  info_rows fuel forest info = info.
Proof.
  revert forest info. induction fuel as [|fuel IH]; intros forest info H;
    [reflexivity|].
  destruct forest as [|n rest]; [reflexivity|].
  assert (Hin : forall row, In row (rows_of (children n ++ rest)) ->
                            labelled_cell row = None).
  { intros row Hrow. apply H. rewrite rows_of_cons.
    rewrite rows_of_app in Hrow. apply in_or_app. now right. }
  destruct n as [s | name attrs cs]; cbn [info_rows].
  - apply IH. exact Hin.
  - destruct (eqs name (lit "tr")) eqn:Hname.
    + rewrite info_row_unlabelled.
      * apply IH. exact Hin.
      * apply H. rewrite rows_of_cons. cbn [is_named existsb].
        rewrite Hname. now left.
    + apply IH. exact Hin.
Qed.

(** X15.  [get_film_info] raises exactly when the request raises; and on
    a page without infobox, or whose infobox has no row with a header
    cell, a data cell and one of the four labels, it returns the
    dictionary with all fields null. *)
Theorem get_film_info_null_fields
    (fetch : str -> result node) (film_url : str) :
  (forall e, get_film_info fetch film_url = Raise e
             <-> fetch film_url = Raise e)
  /\ (forall film_soup,
         fetch film_url = Ok film_soup ->
         (forall infobox row,
             List.find is_infobox (descendants film_soup) = Some infobox ->
             In row (find_all [lit "tr"] infobox) ->
             labelled_cell row = None) ->
         get_film_info fetch film_url = Ok Info.empty).
Proof.
  unfold get_film_info. split.
  - intros e. destruct (fetch film_url) as [soup|e']; cbn [and_then].
    + destruct (List.find is_infobox (descendants soup)); split; discriminate.
    + split; intros [= ->]; reflexivity.
  - intros soup -> H. cbn [and_then].
    destruct (List.find is_infobox (descendants soup)) as [infobox|];
      [|reflexivity].
    f_equal. apply info_rows_unlabelled. intros row Hrow.
    apply (H infobox row eq_refl). now rewrite find_all_rows.
Qed.

Lemma get_film_info_null_fields_witness :
  get_film_info (fun _ => Ok empty_page) (lit "/wiki/Film") = Ok Info.empty.
Proof.
  destruct (get_film_info_null_fields
              (fun _ => Ok empty_page) (lit "/wiki/Film")) as [_ H].
  apply (H empty_page eq_refl). intros infobox row Hbox. discriminate Hbox.
Defined.

(* ================================================================= *)
(** ** Listing page, further *)

Section Listing.

Variable fetch : str -> result node.

Lemma title_and_link_title (title_cell : node) :
  fst (title_and_link title_cell) <> None.
Proof.
  unfold title_and_link.
  destruct (find [lit "i"] title_cell) as [i_tag|].
  - destruct (find [lit "a"] i_tag); discriminate.
  - destruct (find [lit "a"] title_cell); discriminate.
Qed.

(** One turn of the loop of [extract_films], once the title column is
    known: the turn does not raise; it skips the rows that do not reach
    the column and makes a record of the others. *)
Lemma film_of_row_outcome (index : nat) (row : node) :
  match nth_error (cells_of row) index with
  | None => film_of_row fetch (Some index) row = Ok None
  | Some title_cell =>
      exists film,
        film_of_row fetch (Some index) row = Ok (Some film)
        /\ Film.title film = fst (title_and_link title_cell)
        /\ details_from fetch film
  end.
Proof.
  unfold film_of_row, cells_of.
  destruct (find_all [lit "td"; lit "th"] row) as [|c cs] eqn:E.
  - now destruct index.
  - destruct (Nat.leb_spec (length (c :: cs)) index) as [Hle | Hlt].
    + apply nth_error_None in Hle. now rewrite Hle.
    + destruct (nth_error (c :: cs) index) as [title_cell|] eqn:N;
        [|apply nth_error_None in N; lia].
      destruct (title_and_link title_cell) as [film_title film_link].
      cbn [fst].
      assert (Hnull : exists film,
                 Ok (Some (Film.make film_title None None None None))
                 = Ok (Some film)
                 /\ Film.title film = film_title
                 /\ details_from fetch film).
      { eexists. split; [reflexivity|]. split; [reflexivity|].
        left. now repeat split. }
      destruct film_link as [[|l link]|]; [exact Hnull | | exact Hnull].
      destruct (get_film_info fetch _) as [extra_info|e] eqn:G;
        [|exact Hnull].
      eexists. split; [reflexivity|]. split; [reflexivity|].
      right. eexists _, extra_info. split; [exact G|]. now repeat split.
Qed.

Lemma films_of_rows_outcome (index : nat) (rows : list node)
    (films : list Film.t) :
  exists more,
    films_of_rows fetch (Some index) rows films = Ok (films ++ more)
    /\ map Film.title more = row_titles index rows
    /\ Forall (details_from fetch) more.
Proof.
  revert films. induction rows as [|row rows IH]; intros films.
  - exists []. cbn. now rewrite app_nil_r.
  - cbn [films_of_rows]. pose proof (film_of_row_outcome index row) as H.
    unfold row_titles. cbn [flat_map]. fold (row_titles index rows).
    destruct (nth_error (cells_of row) index) as [title_cell|].
    + destruct H as (film & -> & Ht & Hd). cbn [and_then].
      destruct (IH (films ++ [film])) as (more & -> & Hm & Hds).
      exists (film :: more). rewrite <- app_assoc. cbn [app map].
      rewrite Ht, Hm. repeat split. now constructor.
    + rewrite H. cbn [and_then]. destruct (IH films) as (more & -> & Hm & Hds).
      now exists more.
Qed.

Lemma films_of_rows_untitled (rows : list node) (films : list Film.t) :
  films_of_rows fetch None rows films =
  if existsb has_cells rows then Raise TypeError else Ok films.
Proof.
  induction rows as [|row rows IH]; [reflexivity|].
  cbn [films_of_rows existsb]. unfold film_of_row, has_cells, cells_of.
  destruct (find_all [lit "td"; lit "th"] row); [exact IH | reflexivity].
Qed.

Lemma extract_films_unfold (soup : node) :
  fetch listing_url = Ok soup ->
  extract_films fetch =
  match target_table soup with
  | None => Raise AttributeError
  | Some table =>
      match find [lit "tr"] table with
      | None => Raise AttributeError
      | Some header_row =>
          films_of_rows fetch (title_index_of header_row)
            (data_rows table) []
      end
  end.
Proof. intros H. unfold extract_films. now rewrite H. Qed.

(** X16.  When the listing page has a table to read and the header row
    of the table names a title column, [extract_films] does not raise,
    whatever the requests for the detail pages do; it returns one record
    for every row that reaches the title column, in the order of the
    rows, and the title of a record is never null. *)
Theorem extract_films_titles (soup table header_row : node) (index : nat) :
  fetch listing_url = Ok soup ->
  target_table soup = Some table ->
  find [lit "tr"] table = Some header_row ->
  title_index_of header_row = Some index ->
  exists films,
    extract_films fetch = Ok films
    /\ map Film.title films = row_titles index (data_rows table)
    /\ Forall (fun film => Film.title film <> None) films.
Proof.
  intros Hf Ht Hh Hi. rewrite (extract_films_unfold Hf), Ht, Hh, Hi.
  destruct (films_of_rows_outcome index (data_rows table) [])
    as (films & -> & Hm & _).
  exists films. split; [reflexivity|]. split; [exact Hm|].
  clear Hf Ht Hh Hi. revert films Hm. unfold row_titles.
  induction (data_rows table) as [|row rows IH]; intros films Hm.
  - destruct films; [constructor | discriminate].
  - cbn [flat_map] in Hm.
    destruct (nth_error (cells_of row) index) as [title_cell|];
      [|now apply IH].
    destruct films as [|film films]; [discriminate|].
    injection Hm as Ht Hm. constructor; [|now apply IH].
    rewrite Ht. apply title_and_link_title.
Qed.

(** X17.  A request for a detail page that fails does not stop
    [extract_films]: the details of every record returned are all null,
    or they are what [get_film_info] returns for a URL. *)
Theorem extract_films_details (soup table header_row : node) (index : nat) :
  fetch listing_url = Ok soup ->
  target_table soup = Some table ->
  find [lit "tr"] table = Some header_row ->
  title_index_of header_row = Some index ->
  exists films,
    extract_films fetch = Ok films
    /\ Forall (details_from fetch) films.
Proof.
  intros Hf Ht Hh Hi. rewrite (extract_films_unfold Hf), Ht, Hh, Hi.
  destruct (films_of_rows_outcome index (data_rows table) [])
    as (films & -> & _ & Hd).
  now exists films.
Qed.

(** X18.  Without title column [extract_films] returns the empty list or
    raises: the request for the listing page that fails is raised again;
    without a table of class [wikitable], and with a table without row,
    [AttributeError] is raised; and when no header cell mentions a title,
    the result is the empty list if no row behind the header row has a
    cell, and [TypeError] otherwise. *)
Theorem extract_films_without_title_column :
  (forall e, fetch listing_url = Raise e -> extract_films fetch = Raise e)
  /\ (forall soup,
         fetch listing_url = Ok soup ->
         (filter is_wikitable (descendants soup) = [] ->
          extract_films fetch = Raise AttributeError)
         /\ (forall table,
                target_table soup = Some table ->
                find [lit "tr"] table = None ->
                extract_films fetch = Raise AttributeError)
         /\ (forall table header_row,
                target_table soup = Some table ->
                find [lit "tr"] table = Some header_row ->
                title_index_of header_row = None ->
                extract_films fetch =
                if existsb has_cells (data_rows table)
                then Raise TypeError else Ok [])).
Proof.
  split.
  - intros e H. unfold extract_films. now rewrite H.
  - intros soup Hf. rewrite (extract_films_unfold Hf). repeat split.
    + intros H. unfold target_table. now rewrite H.
    + intros table -> H. now rewrite H.
    + intros table header_row -> -> ->. apply films_of_rows_untitled.
Qed.

End Listing.

Lemma extract_films_titles_witness :
  exists films,
    extract_films (fun _ => Raise RequestError) = Raise RequestError
    /\ extract_films (fun url => if eqs url listing_url then Ok two_films_page
                                 else Raise RequestError) = Ok films
    /\ map Film.title films = [Some (lit "Avatar"); Some (lit "Titanic")].
Proof.
  destruct (@extract_films_titles
              (fun url => if eqs url listing_url then Ok two_films_page
                          else Raise RequestError)
              two_films_page
              (Tag (lit "table") [(lit "class", lit "wikitable")]
                 (children (hd empty_page (children two_films_page))))
              (element "tr" [element "th" [Text (lit "Rank")];
                             element "th" [Text (lit "Title")]])
              1 eq_refl eq_refl eq_refl eq_refl) as (films & H & Ht & _).
  exists films. split; [reflexivity|]. split; [exact H | exact Ht].
Defined.

Lemma extract_films_details_witness :
  exists films,
    extract_films (fun url => if eqs url listing_url then Ok two_films_page
                              else Raise RequestError) = Ok films
    /\ Forall (details_from
                 (fun url => if eqs url listing_url then Ok two_films_page
                             else Raise RequestError)) films.
Proof.
  apply (@extract_films_details
           (fun url => if eqs url listing_url then Ok two_films_page
                       else Raise RequestError)
           two_films_page
           (Tag (lit "table") [(lit "class", lit "wikitable")]
              (children (hd empty_page (children two_films_page))))
           (element "tr" [element "th" [Text (lit "Rank")];
                          element "th" [Text (lit "Title")]])
           1 eq_refl eq_refl eq_refl eq_refl).
Defined.

Lemma extract_films_without_title_column_witness :
  extract_films (fun _ => Ok empty_page) = Raise AttributeError
  /\ extract_films (fun _ => Ok untitled_listing_page) = Raise TypeError.
Proof.
  split.
  - destruct (extract_films_without_title_column (fun _ => Ok empty_page))
      as [_ H].
    destruct (H empty_page eq_refl) as (H1 & _). now apply H1.
  - destruct (extract_films_without_title_column
                (fun _ => Ok untitled_listing_page)) as [_ H].
    destruct (H untitled_listing_page eq_refl) as (_ & _ & H3).
    apply (H3 (Tag (lit "table") [(lit "class", lit "wikitable")]
                 (children (hd empty_page (children untitled_listing_page))))
              (element "tr" [element "th" [Text (lit "Rank")];
                             element "th" [Text (lit "Film")]])
              eq_refl eq_refl eq_refl).
Defined.

(* ================================================================= *)
(** ** The title column *)

Lemma index_where_first {A} (p : A -> bool) (l : list A) :
  match index_where p l with
  | Some i =>
      (exists x, nth_error l i = Some x /\ p x = true)
      /\ forall j y, j < i -> nth_error l j = Some y -> p y = false
  | None => forall y, In y l -> p y = false
  end.
Proof.
  induction l as [|x l IH]; [easy|]. cbn [index_where].
  destruct (p x) eqn:Hx.
  - split; [now exists x | intros j y Hj; lia].
  - destruct (index_where p l) as [i|].
    + destruct IH as [(z & Hz & Hpz) Hmin]. split; [now exists z|].
      intros [|j] y Hj; cbn [nth_error]; [now intros [= <-]|].
      apply Hmin. lia.
    + intros y [<- | Hy]; [exact Hx | now apply IH].
Qed.

(** X19.  The title column is the first header cell whose lowercased
    text contains ["title"]: the cells before it do not contain it, and no
    index is found exactly when no header cell contains it. *)
Theorem title_index_is_first (header_row : node) :
  match title_index_of header_row with
  | Some i =>
      (exists header, nth_error (headers_of header_row) i = Some header
                      /\ contains (lit "title") header = true)
      /\ forall j header,
           j < i -> nth_error (headers_of header_row) j = Some header ->
           contains (lit "title") header = false
  | None =>
      forall header, In header (headers_of header_row) ->
                     contains (lit "title") header = false
  end.
Proof. apply (index_where_first (contains (lit "title"))). Qed.

(* ================================================================= *)
(** ** The fields of the detail page *)

Lemma last_cell_none (l : label) (rows : list node) :
  last_cell l rows = None <->
  forall row, In row rows -> has_label l row = false.
Proof.
  unfold last_cell, first_cell.
  destruct (List.find (has_label l) (rev rows)) as [row|] eqn:E.
  - apply find_some in E as [Hin Hl]. apply in_rev in Hin. split.
    + unfold has_label in Hl.
      destruct (labelled_cell row) as [[l' c]|] eqn:L; [|discriminate].
      apply labelled_cell_td in L. congruence.
    + intros H. rewrite (H row Hin) in Hl. discriminate.
  - split; [|reflexivity]. intros _ row Hin.
    apply (find_none _ _ E). now apply in_rev in Hin.
Qed.

Lemma get_film_info_apart (fetch : str -> result node) (film_url : str)
    (film_soup infobox : node) :
  fetch film_url = Ok film_soup ->
  List.find is_infobox (descendants film_soup) = Some infobox ->
  rows_apart infobox = true ->
  get_film_info fetch film_url
  = Ok (fold_left info_turn (find_all [lit "tr"] infobox) Info.empty).
Proof.
  intros Hfetch Hbox Hrows.
  unfold get_film_info. rewrite Hfetch. cbn [and_then]. rewrite Hbox.
  f_equal. rewrite find_all_rows. apply info_rows_apart.
  - pose proof (children_size infobox). lia.
  - now apply rows_apart_below.
Qed.

(** X20.  On a detail page whose infobox rows do not lie inside one
    another, the director, the country and the box office are null exactly
    when no row carries their label (with a row, the field is a string,
    which may be empty); and the release year is null when no row carries
    its label. *)
Theorem get_film_info_null_iff
    (fetch : str -> result node) (film_url : str) (film_soup infobox : node) :
  fetch film_url = Ok film_soup ->
  List.find is_infobox (descendants film_soup) = Some infobox ->
  rows_apart infobox = true ->
  let rows := find_all [lit "tr"] infobox in
  let unlabelled l := forall row, In row rows -> has_label l row = false in
  exists info,
    get_film_info fetch film_url = Ok info
    /\ (Info.director info = None <-> unlabelled Directed)
    /\ (Info.country info = None <-> unlabelled Country)
    /\ (Info.box_office info = None <-> unlabelled BoxOffice)
    /\ (unlabelled Released -> Info.release_year info = None).
Proof.
  intros Hfetch Hbox Hrows rows unlabelled.
  exists (fold_left info_turn rows Info.empty).
  split; [now apply (@get_film_info_apart fetch film_url film_soup)|].
  destruct (info_turns_last rows Info.empty) as (Hd & Hy & Hc & Hb).
  cbn zeta in *. rewrite Hd, Hy, Hc, Hb. unfold unlabelled.
  rewrite <- !last_cell_none.
  cbn [Info.empty Info.director Info.release_year Info.country
       Info.box_office].
  split; [|split; [|split]].
  - destruct (last_cell Directed rows); split; congruence.
  - destruct (last_cell Country rows); split; congruence.
  - destruct (last_cell BoxOffice rows); split; congruence.
  - intros ->. reflexivity.
Qed.

Lemma get_film_info_null_iff_witness :
  exists info,
    get_film_info (fun _ => Ok two_directors_page) (lit "/wiki/Film") = Ok info
    /\ Info.country info = None.
Proof.
  destruct (@get_film_info_null_iff
              (fun _ => Ok two_directors_page) (lit "/wiki/Film")
              two_directors_page
              (Tag (lit "table") [(lit "class", lit "infobox vevent")]
                 [infobox_row "Directed by" "Alice";
                  infobox_row "Directed by" "Bob"])
              eq_refl eq_refl eq_refl) as (info & H & _ & Hc & _).
  exists info. split; [exact H|]. apply Hc.
  intros row [<- | [<- | []]]; reflexivity.
Defined.

(* ================================================================= *)
(** ** The box-office value without amount *)

Lemma fields_first (delim : ascii -> bool) (s : str) :
  exists ps, fields delim s
             = (fix before (t : str) : str :=
                  match t with
                  | [] => []
                  | c :: r => if delim c then [] else c :: before r
                  end) s :: ps.
Proof.
  induction s as [|c t [ps IH]]; cbn; [now exists []|].
  destruct (delim c); [eauto|]. rewrite IH. eauto.
Qed.

Lemma re_split_pipe_clean_text (s : str) :
  exists ps, re_split is_pipe_or_newline (clean_text s)
             = before_pipe (clean_text s) :: ps.
Proof.
  unfold re_split.
  rewrite (@fields_ext is_pipe_or_newline (fun c => eqc c "|"%char)).
  - apply (fields_first (fun c => eqc c "|"%char)).
  - eapply Forall_impl; [|apply clean_text_chars].
    intros c Hc. unfold is_pipe_or_newline.
    destruct (eqc c newline) eqn:E; [|apply orb_false_r].
    apply eqc_true in E. subst c. destruct Hc as [Hc | Hc]; discriminate.
Qed.

(** X21.  When the box-office extractor finds no amount, it returns the
    text of the cell before the first pipe, stripped; the newline of the
    pattern cannot occur, the text being normalized. *)
Theorem extract_box_office_fallback (td : node) :
  search_amount (box_office_text td) = None ->
  returns extract_box_office td = strip (before_pipe (box_office_text td)).
Proof.
  intros H. unfold returns, extract_box_office, bind, remove_sup_tags.
  fold (box_office_text td). rewrite H.
  unfold box_office_text at 1.
  destruct (re_split_pipe_clean_text
              (replace_char nbsp " "%char
                 (join (lit " ") (stripped_strings (without_sups td)))))
    as [ps ->].
  reflexivity.
Qed.

Lemma extract_box_office_fallback_witness :
  returns extract_box_office unknown_amount_cell = lit "unknown".
Proof.
  rewrite (@extract_box_office_fallback unknown_amount_cell eq_refl).
  reflexivity.
Defined.
